(** * ParamPackage: a string-based key-value container
    (src/common/param_package.h, src/common/param_package.cpp)

    A shallow embedding of the container, of its serialized text format and
    of its typed accessors, followed by the properties of the format that
    the code has and the ones it lacks. *)

From Stdlib Require Import Ascii String ZArith NArith List Lia.
From Stdlib Require Import DecimalString DecimalFacts DecimalNat.
From stdpp Require Import gmap strings list fin_maps sorting.

Open Scope Z_scope.
Open Scope nat_scope.

#[local] Arguments String.append : simpl nomatch.

(** ** Outcomes of a C++ call

    A call returns a value, leaves through an exception that no frame of
    this file catches, or has no defined behaviour ([front()] of an empty
    string, [operator[]] past the end of a vector).  [OutOfFuel] is the
    model's own: a [while] loop is unrolled a bounded number of times, and
    the lemmas below show that the bound is never the reason a loop ends. *)

Inductive exception : Set :=
| invalid_argument
| out_of_range.

Inductive outcome (A : Type) : Type :=
| Returns (a : A)
| Throws (e : exception)
| Undefined
| OutOfFuel.

Arguments Returns {A} a.
Arguments Throws {A} e.
Arguments Undefined {A}.
Arguments OutOfFuel {A}.

Global Instance outcome_ret : MRet outcome := fun A a => Returns a.

Global Instance outcome_bind : MBind outcome := fun A B f c =>
  match c with
  | Returns a => f a
  | Throws e => Throws e
  | Undefined => Undefined
  | OutOfFuel => OutOfFuel
  end.

(** ** Constants of param_package.cpp *)

Definition KEY_VALUE_SEPARATOR : ascii := ":"%char.
Definition PARAM_SEPARATOR : ascii := ","%char.
Definition LIST_SEPARATOR : ascii := "|"%char.
Definition ESCAPE_CHARACTER : ascii := "$"%char.
Definition KEY_VALUE_SEPARATOR_ESCAPE : string := "$0".
Definition PARAM_SEPARATOR_ESCAPE : string := "$1".
Definition ESCAPE_CHARACTER_ESCAPE : string := "$2".
Definition EMPTY_PLACEHOLDER : string := "[empty]".

(** The braced initialiser [{c}] of the source: the one-character string. *)
Definition str1 (c : ascii) : string := String c "".

(** ** std::string operations *)

Fixpoint str_take (n : nat) (s : string) : string :=
  match n, s with
  | S n', String c s' => String c (str_take n' s')
  | _, _ => ""
  end.

Fixpoint str_drop (n : nat) (s : string) : string :=
  match n, s with
  | S n', String _ s' => str_drop n' s'
  | _, _ => s
  end.

(** [s.front()]: the first character; undefined on the empty string. *)
Definition front (s : string) : outcome ascii :=
  match s with
  | "" => Undefined
  | String c _ => Returns c
  end.

(** [s.back()]: the last character; undefined on the empty string. *)
Fixpoint back (s : string) : outcome ascii :=
  match s with
  | "" => Undefined
  | String c "" => Returns c
  | String _ s' => back s'
  end.

(** [s.pop_back()]. *)
Fixpoint pop_back (s : string) : string :=
  match s with
  | "" => ""
  | String _ "" => ""
  | String c s' => String c (pop_back s')
  end.

(** [s.substr(pos, count)]: throws when [pos > size()], clips [count]. *)
Definition substr (s : string) (pos count : nat) : outcome string :=
  if String.length s <? pos then Throws out_of_range
  else Returns (str_take count (str_drop pos s)).

(** [s.find(pat)]: the first position where [pat] occurs, [None] for npos. *)
Fixpoint find (s pat : string) : option nat :=
  if String.prefix pat s then Some 0
  else match s with
       | "" => None
       | String _ s' => S <$> find s' pat
       end.

(** [s.replace(pos, len, r)] with [pos] as [find] gave it: npos is past
    the end of every string, and a position past the end throws. *)
Definition replace (s : string) (pos : option nat) (len : nat) (r : string)
  : outcome string :=
  match pos with
  | None => Throws out_of_range
  | Some p =>
      if String.length s <? p then Throws out_of_range
      else Returns (str_take p s +:+ r +:+ str_drop (p + len) s)
  end.

(** [std::to_string] of a [size_t]. *)
Definition to_string (n : nat) : string :=
  NilEmpty.string_of_uint (Nat.to_uint n).

(** [fmt::join(items, sep)] rendered by [fmt::format]. *)
Fixpoint join (sep : string) (items : list string) : string :=
  match items with
  | [] => ""
  | [x] => x
  | x :: rest => x +:+ sep +:+ join sep rest
  end.

(** Occurrence of a character in a string. *)
Fixpoint has_char (c : ascii) (s : string) : bool :=
  match s with
  | "" => false
  | String a s' => if decide (a = c) then true else has_char c s'
  end.

(** ** std::stoi *)

Definition isspace (c : ascii) : bool :=
  let n := nat_of_ascii c in (n =? 32) || ((9 <=? n) && (n <=? 13)).

Definition isdigit (c : ascii) : bool :=
  let n := nat_of_ascii c in (48 <=? n) && (n <=? 57).

Definition digit_value (c : ascii) : Z := Z.of_nat (nat_of_ascii c) - 48.

Fixpoint skip_spaces (s : string) : string :=
  match s with
  | String c s' => if isspace c then skip_spaces s' else s
  | "" => ""
  end.

(** The longest prefix of decimal digits. *)
Fixpoint take_digits (s : string) : string :=
  match s with
  | String c s' => if isdigit c then String c (take_digits s') else ""
  | "" => ""
  end.

Fixpoint digits_value (acc : Z) (ds : string) : Z :=
  match ds with
  | "" => acc
  | String c ds' => digits_value (10 * acc + digit_value c) ds'
  end.

Definition INT_MIN : Z := - 2 ^ 31.
Definition INT_MAX : Z := 2 ^ 31 - 1.

(** [std::stoi(s)], base 10: leading white space, an optional sign, the
    longest run of digits; what follows the digits is ignored.  No digit is
    [std::invalid_argument], a value that does not fit [int] is
    [std::out_of_range]. *)
Definition stoi (s : string) : outcome Z :=
  let s1 := skip_spaces s in
  let '(sign, s2) :=
    match s1 with
    | String c r =>
        if decide (c = "-"%char) then (-1, r)
        else if decide (c = "+"%char) then (1, r)
        else (1, s1)
    | "" => (1, s1)
    end%Z in
  let ds := take_digits s2 in
  match ds with
  | "" => Throws invalid_argument
  | _ =>
      let v := (sign * digits_value 0 ds)%Z in
      if ((INT_MIN <=? v) && (v <=? INT_MAX))%Z then Returns v
      else Throws out_of_range
  end.

(** ** Helpers of common/string_util *)

(** Modelled from the spec: [Common::SplitString] (common/string_util is not
    part of the sources at hand).  "A string-splitting utility divides text
    on a single-character delimiter, preserving empty fields": a text with
    [n] delimiters has [n + 1] fields. *)
Fixpoint SplitString (str : string) (delim : ascii) : list string :=
  match str with
  | "" => [""]
  | String c rest =>
      if decide (c = delim) then "" :: SplitString rest delim
      else match SplitString rest delim with
           | field :: fields => String c field :: fields
           | [] => [String c ""]
           end
  end.

(** Modelled from the spec: [Common::ReplaceAll] (common/string_util is not
    part of the sources at hand), the primitive behind the escaping rules of
    the format: every occurrence of [src], found scanning from the left and
    never inside text already replaced, becomes [dest]. *)
Fixpoint replace_scan (src dest : string) (skip : nat) (s : string) : string :=
  match s with
  | "" => ""
  | String c s' =>
      match skip with
      | S k => replace_scan src dest k s'
      | O =>
          if String.prefix src s
          then dest +:+ replace_scan src dest (String.length src - 1) s'
          else String c (replace_scan src dest 0 s')
      end
  end.

Definition ReplaceAll (result src dest : string) : string :=
  if decide (src = dest) then result else replace_scan src dest 0 result.

(** ** The two regular expressions *)

(** The tail [[^\[]*?\]] of LIST_MATCH: the shortest run of characters
    other than an opening bracket that is followed by a closing bracket. *)
Fixpoint lazy_body (s : string) : option string :=
  match s with
  | "" => None
  | String c s' =>
      if decide (c = "]"%char) then Some "]"
      else if decide (c = "["%char) then None
      else String c <$> lazy_body s'
  end.

(** LIST_MATCH [\[(?:\[??[^\[]*?\])] anchored at the head of [s]: the
    optional second bracket is lazy, so it is tried only after the match
    without it failed. *)
Definition list_match_here (s : string) : option string :=
  match s with
  | String c r =>
      if decide (c = "["%char) then
        match lazy_body r with
        | Some b => Some (String "[" b)
        | None =>
            match r with
            | String c' r' =>
                if decide (c' = "["%char)
                then (fun b => String "[" (String "[" b)) <$> lazy_body r'
                else None
            | "" => None
            end
        end
      else None
  | "" => None
  end.

(** [std::regex_search(s, m, LIST_MATCH)]: the sub-matches of the leftmost
    match.  The expression has no capture group, so [m] holds the whole
    match only. *)
Fixpoint regex_search_LIST_MATCH (s : string) : option (list string) :=
  match list_match_here s with
  | Some m0 => Some [m0]
  | None =>
      match s with
      | "" => None
      | String _ s' => regex_search_LIST_MATCH s'
      end
  end.

(** [##([\d]+)] anchored at the head of [s]: the whole match and the
    capture group. *)
Definition placeholder_here (s : string) : option (list string) :=
  match s with
  | String a (String b r) =>
      if decide (a = "#"%char) then
        if decide (b = "#"%char) then
          match take_digits r with
          | "" => None
          | ds => Some [String "#" (String "#" ds); ds]
          end
        else None
      else None
  | _ => None
  end.

(** [std::regex_search(str, m, std::regex("##([\d]+)"))]. *)
Fixpoint regex_search_placeholder (s : string) : option (list string) :=
  match placeholder_here s with
  | Some m => Some m
  | None =>
      match s with
      | "" => None
      | String _ s' => regex_search_placeholder s'
      end
  end.

(** ** Placeholder tables

    An entry of a lookup table is a [std::string].  [PlaceholderifyData]
    builds the entries it appends with [x.str()] after [s.replace] has
    rewritten (and may have released) the buffer that the iterators of the
    sub-match [x] point into: the source does not determine what text such
    an entry holds, and it is not the match.  The model keeps the entry and
    leaves its text open. *)
Inductive table_entry : Set :=
| Text (text : string)
| Indeterminate.

(** [for (auto x : m)] visits the sub-matches of [m] in order; the body may
    leave through an exception.  The sub-matches are handed over as the
    text they have when the search returns, which is what the body reads
    from them up to its first change of the string. *)
Fixpoint for_each {A B : Type} (body : A -> B -> outcome A) (a : A) (m : list B)
  : outcome A :=
  match m with
  | [] => Returns a
  | x :: rest => a' ← body a x; for_each body a' rest
  end.

(** Body of the loop of [PlaceholderifyData]:
    [s.replace(s.find(x.str()), x.length(), "##" + to_string(lookup.size()));
     lookup.emplace_back(x.str());]
    The arguments of [replace] read [x] before the string changes; the
    [x.str()] of the second statement reads it afterwards. *)
Definition placeholderify_step (st : string * list table_entry) (x : string)
  : outcome (string * list table_entry) :=
  let '(s, lookup) := st in
  s' ← replace s (find s x) (String.length x)
         ("##" +:+ to_string (length lookup));
  mret (s', lookup ++ [Indeterminate]).

Fixpoint PlaceholderifyData_loop (fuel : nat) (s : string)
  (lookup : list table_entry) : outcome (string * list table_entry) :=
  match fuel with
  | O => OutOfFuel
  | S fuel' =>
      match regex_search_LIST_MATCH s with
      | None => Returns (s, lookup)
      | Some m =>
          st ← for_each placeholderify_step (s, lookup) m;
          PlaceholderifyData_loop fuel' st.1 st.2
      end
  end.

(** [ParamPackage::PlaceholderifyData(str, lookup)]: the masked string and
    the lookup table as the call leaves it.  Every round removes an opening
    bracket, so the loop test runs at most [length str + 1] times. *)
Definition PlaceholderifyData (str : string) (lookup : list table_entry)
  : outcome (string * list table_entry) :=
  PlaceholderifyData_loop (S (String.length str)) str lookup.

(** [lookup[i]] with [i] an [int] converted to [size_t]. *)
Definition vector_at (lookup : list table_entry) (i : Z) : outcome string :=
  if (i <? 0)%Z then Undefined
  else match lookup !! Z.to_nat i with
       | Some (Text x) => Returns x
       | Some Indeterminate => Undefined
       | None => Undefined
       end.

(** Body of the loop of [ReplacePlaceholders]:
    [str.replace(str.find("##" + x.str()), 2 + x.length(),
                 lookup[std::stoi(x.str())]);] *)
Definition replace_placeholder_step (lookup : list table_entry)
  (str x : string) : outcome string :=
  i ← stoi x;
  r ← vector_at lookup i;
  replace str (find str ("##" +:+ x)) (2 + String.length x) r.

Fixpoint ReplacePlaceholders_loop (fuel : nat) (str : string)
  (lookup : list table_entry) : outcome string :=
  match fuel with
  | O => OutOfFuel
  | S fuel' =>
      match regex_search_placeholder str with
      | None => Returns str
      | Some m =>
          str' ← for_each (replace_placeholder_step lookup) str m;
          ReplacePlaceholders_loop fuel' str' lookup
      end
  end.

(** [ParamPackage::ReplacePlaceholders(str, lookup)]: the string as the
    call leaves it. *)
Definition ReplacePlaceholders (str : string) (lookup : list table_entry)
  : outcome string :=
  ReplacePlaceholders_loop (S (String.length str)) str lookup.

(** ** The container *)

Abbreviation DataType := (gmap string string).

(** Iteration over a [std::map<std::string, std::string>] goes by
    ascending key. *)
Definition key_order (p q : string * string) : Prop := String.le p.1 q.1.

Global Instance key_order_dec p q : Decision (key_order p q).
Proof. unfold key_order. apply _. Defined.

Definition entries (data : DataType) : list (string * string) :=
  merge_sort key_order (map_to_list data).

(** The three [ReplaceAll] calls of [Serialize], in the order of the code. *)
Definition escape (part : string) : string :=
  let part := ReplaceAll part (str1 ESCAPE_CHARACTER) ESCAPE_CHARACTER_ESCAPE in
  let part := ReplaceAll part (str1 PARAM_SEPARATOR) PARAM_SEPARATOR_ESCAPE in
  ReplaceAll part (str1 KEY_VALUE_SEPARATOR) KEY_VALUE_SEPARATOR_ESCAPE.

(** The three [ReplaceAll] calls of the constructor. *)
Definition unescape (part : string) : string :=
  let part := ReplaceAll part KEY_VALUE_SEPARATOR_ESCAPE (str1 KEY_VALUE_SEPARATOR) in
  let part := ReplaceAll part PARAM_SEPARATOR_ESCAPE (str1 PARAM_SEPARATOR) in
  ReplaceAll part ESCAPE_CHARACTER_ESCAPE (str1 ESCAPE_CHARACTER).

(** [ParamPackage::Serialize]. *)
Definition Serialize (data : DataType) : string :=
  if decide (data = ∅) then EMPTY_PLACEHOLDER
  else
    pop_back
      (foldl (fun result pair =>
                result +:+ (escape pair.1 +:+ str1 KEY_VALUE_SEPARATOR +:+
                            escape pair.2 +:+ str1 PARAM_SEPARATOR))
             "" (entries data)).

(** Setters, one per overload of [ParamPackage::Set].

    [Set(key, std::string value)]:
    [data.insert_or_assign(key, std::move(value))]. *)
Definition Set_string (data : DataType) (key value : string) : DataType :=
  <[key := value]> data.

(** [Set(key, std::vector<std::string> value)]: the value stored is
    [fmt::format("[{}]", fmt::join(value, std::string{LIST_SEPARATOR}))]. *)
Definition Set_strings (data : DataType) (key : string) (value : list string)
  : DataType :=
  <[key := "[" +:+ join (str1 LIST_SEPARATOR) value +:+ "]"]> data.

(** [Set(key, ParamPackage value)]:
    [data.insert_or_assign(key, std::move(value.Serialize()))]. *)
Definition Set_package (data : DataType) (key : string) (value : DataType)
  : DataType :=
  <[key := Serialize value]> data.

(** [Set(key, std::vector<ParamPackage> value)]: the same format string as
    for the other vectors; [fmt::formatter<Common::ParamPackage>] prints an
    element as its [Serialize()]. *)
Definition Set_packages (data : DataType) (key : string) (value : list DataType)
  : DataType :=
  <[key := "[" +:+ join (str1 LIST_SEPARATOR) (Serialize <$> value) +:+ "]"]> data.

(** Body of the loop over [pairs] in the constructor. *)
Definition parse_pair (data : DataType) (pair : string) : DataType :=
  match SplitString pair KEY_VALUE_SEPARATOR with
  | [k; v] => Set_string data (unescape k) (unescape v)
  | _ => data
  end.

(** The last loop of the constructor: every stored value, by ascending
    key, goes through [ReplacePlaceholders]. *)
Definition restore_values (lookup : list table_entry) (data : DataType)
  : outcome DataType :=
  for_each (fun d pair =>
              value ← ReplacePlaceholders pair.2 lookup;
              mret (<[pair.1 := value]> d))
           data (entries data).

(** [ParamPackage::ParamPackage(const std::string& serialized)]. *)
Definition ParamPackage (serialized : string) : outcome DataType :=
  if decide (serialized = EMPTY_PLACEHOLDER) then Returns ∅
  else
    st ← PlaceholderifyData serialized [];
    let pairs := SplitString st.1 PARAM_SEPARATOR in
    restore_values st.2 (foldl parse_pair ∅ pairs).

(** [pair->second.front() == '[' && pair->second.back() == ']']. *)
Definition is_bracketed (second : string) : outcome bool :=
  f ← front second;
  if decide (f = "["%char)
  then b ← back second; mret (bool_decide (b = "]"%char))
  else mret false.

(** [pair->second.substr(1, pair->second.size() - 2)], reached only after
    the test above succeeded: the string then has two characters or more
    ([is_bracketed_length] below) and the unsigned subtraction does not
    wrap around. *)
Definition strip_brackets (second : string) : outcome string :=
  substr second 1 (String.length second - 2).

(** Getters, one per overload of [ParamPackage::Get] (the overloads for
    [float] are left out).  A key that is not found gives the default. *)
Definition Get_string (data : DataType) (key default_value : string) : string :=
  match data !! key with
  | None => default_value
  | Some second => second
  end.

Definition Get_strings (data : DataType) (key : string)
  (default_value : list string) : outcome (list string) :=
  match data !! key with
  | None => Returns default_value
  | Some second =>
      br ← is_bracketed second;
      if br : bool then
        val ← strip_brackets second;
        mret (SplitString val LIST_SEPARATOR)
      else mret default_value
  end.

(** [try { return e; } catch (const std::logic_error&) { return d; }]:
    both exceptions of this file derive from [std::logic_error]. *)
Definition catch_logic_error {A : Type} (e : outcome A) (d : A) : outcome A :=
  match e with
  | Throws _ => Returns d
  | o => o
  end.

Definition Get_int (data : DataType) (key : string) (default_value : Z)
  : outcome Z :=
  match data !! key with
  | None => Returns default_value
  | Some second => catch_logic_error (stoi second) default_value
  end.

(** The loop of the list-of-int getter: the first element that does not
    parse returns the default from inside the loop. *)
Fixpoint Get_ints_loop (default_value vec : list Z) (vec0 : list string)
  : outcome (list Z) :=
  match vec0 with
  | [] => Returns vec
  | str :: rest =>
      match stoi str with
      | Returns n => Get_ints_loop default_value (vec ++ [n]) rest
      | Throws _ => Returns default_value
      | Undefined => Undefined
      | OutOfFuel => OutOfFuel
      end
  end.

Definition Get_ints (data : DataType) (key : string) (default_value : list Z)
  : outcome (list Z) :=
  vec0 ← Get_strings data key [];
  match vec0 with
  | [] => Returns default_value
  | _ => Get_ints_loop default_value [] vec0
  end.

Definition Get_package (data : DataType) (key : string)
  (default_value : DataType) : outcome DataType :=
  match data !! key with
  | None => Returns default_value
  | Some second =>
      br ← is_bracketed second;
      if br : bool then
        val ← strip_brackets second;
        chk ← PlaceholderifyData val [];
        match find chk.1 (str1 LIST_SEPARATOR) with
        | Some _ => Returns default_value
        | None =>
            match find chk.1 (str1 PARAM_SEPARATOR) with
            | None => Returns default_value
            | Some _ => ParamPackage val
            end
        end
      else Returns default_value
  end.

(** [std::for_each] and [std::transform] over a vector, either of which
    stops at the first call that does not return. *)
Fixpoint transform {A B : Type} (f : A -> outcome B) (vec : list A)
  : outcome (list B) :=
  match vec with
  | [] => Returns []
  | x :: rest => y ← f x; ys ← transform f rest; mret (y :: ys)
  end.

Definition Get_packages (data : DataType) (key : string)
  (default_value : list DataType) : outcome (list DataType) :=
  match data !! key with
  | None => Returns default_value
  | Some second =>
      br ← is_bracketed second;
      if br : bool then
        val ← strip_brackets second;
        st ← PlaceholderifyData val [];
        match find st.1 (str1 PARAM_SEPARATOR) with
        | None => Returns default_value
        | Some _ =>
            let vec := SplitString st.1 LIST_SEPARATOR in
            vec' ← transform (fun str => ReplacePlaceholders str st.2) vec;
            transform ParamPackage vec'
        end
      else Returns default_value
  end.

(** [ParamPackage::Has]. *)
Definition Has (data : DataType) (key : string) : bool :=
  bool_decide (is_Some (data !! key)).

(** ** The remaining members *)

(** [ParamPackage::ParamPackage(std::initializer_list<...> list) :
    data(list)]: a [std::map] built from a list inserts the pairs in order
    and leaves a key that is already there as it is. *)
Definition ParamPackage_list (list : list (string * string)) : DataType :=
  foldl (fun data pair =>
           match data !! pair.1 with
           | Some _ => data
           | None => <[pair.1 := pair.2]> data
           end)
        ∅ list.

(** [std::to_string] of an [int], which is also what [fmt] prints for it:
    the decimal digits, after a minus sign when negative. *)
Definition to_string_int (value : Z) : string :=
  if (value <? 0)%Z then "-" +:+ to_string (Z.abs_nat value)
  else to_string (Z.abs_nat value).

(** [Set(key, int value)]:
    [data.insert_or_assign(key, std::to_string(value))]. *)
Definition Set_int (data : DataType) (key : string) (value : Z) : DataType :=
  <[key := to_string_int value]> data.

(** [Set(key, std::vector<int> value)]: the format string of the other
    vectors. *)
Definition Set_ints (data : DataType) (key : string) (value : list Z)
  : DataType :=
  <[key := "[" +:+ join (str1 LIST_SEPARATOR) (to_string_int <$> value) +:+ "]"]>
    data.

(** [ParamPackage::Erase]: [data.erase(key)]. *)
Definition Erase (data : DataType) (key : string) : DataType :=
  delete key data.

(** [ParamPackage::Clear]: [data.clear()]. *)
Definition Clear (data : DataType) : DataType := ∅.

(** ** Notions used in the statements and proofs below *)

(** Character-wise substitution: what [ReplaceAll] does for a pattern of
    one character. *)
Fixpoint subst_char (c : ascii) (dest : string) (s : string) : string :=
  match s with
  | "" => ""
  | String a s' =>
      if decide (a = c) then dest +:+ subst_char c dest s'
      else String a (subst_char c dest s')
  end.

(** [armed] tells that the character before [s] was [a]: is there an [a]
    immediately followed by [b]? *)
Fixpoint has_pair_from (a b : ascii) (armed : bool) (s : string) : bool :=
  match s with
  | "" => false
  | String x s' =>
      (armed && bool_decide (x = b)) || has_pair_from a b (bool_decide (x = a)) s'
  end.

(** The part of a serialized pair that [Serialize] writes before the
    trailing separator. *)
Definition encode_pair (pair : string * string) : string :=
  escape pair.1 +:+ str1 KEY_VALUE_SEPARATOR +:+ escape pair.2.

(** Number of occurrences of a character: the opening brackets are what
    the loop of [PlaceholderifyData] consumes. *)
Fixpoint count_char (c : ascii) (s : string) : nat :=
  match s with
  | "" => 0
  | String a s' => (if decide (a = c) then 1 else 0) + count_char c s'
  end.

(** No opening bracket: nothing for LIST_MATCH to find. *)
Definition bracket_free (s : string) : Prop := has_char "[" s = false.

(** No list separator. *)
Definition pipe_free (s : string) : Prop := has_char LIST_SEPARATOR s = false.

(** No [##N] token: nothing for the placeholder expression to find. *)
Definition placeholder_free (s : string) : Prop :=
  regex_search_placeholder s = None.

Definition starts_digit (s : string) : bool :=
  match s with
  | String c _ => isdigit c
  | "" => false
  end.

(** [s] begins with [##] and a digit. *)
Definition starts_token (s : string) : bool :=
  match s with
  | String a (String b r) =>
      bool_decide (a = "#"%char) && bool_decide (b = "#"%char) && starts_digit r
  | _ => false
  end.

(** The same as a scan that counts the [#] just read (up to two). *)
Fixpoint placeholder_from (hashes : nat) (s : string) : bool :=
  match s with
  | "" => false
  | String c s' =>
      (bool_decide (hashes = 2) && isdigit c)
      || placeholder_from
           (if decide (c = "#"%char) then Nat.min 2 (S hashes) else 0) s'
  end.

(** ** Evaluation on the inputs of the specification *)

Example serialize_escapes :
  Serialize (Set_string ∅ "a" "x:y,z$w") = "a:x$0y$1z$2w".
Proof. vm_compute. reflexivity. Qed.

Example parse_escaped :
  ParamPackage "a:x$0y$1z$2w" = Returns {[ "a" := "x:y,z$w" ]}.
Proof. vm_compute. reflexivity. Qed.

Example placeholderify_nested :
  PlaceholderifyData "k:[[a]],l:[b|c]" [] =
  Returns ("k:##0],l:##1", [Indeterminate; Indeterminate]).
Proof. vm_compute. reflexivity. Qed.

Example get_strings_list :
  Get_strings (Set_strings ∅ "k" ["a"; "b"; "c"]) "k" [] =
  Returns ["a"; "b"; "c"].
Proof. vm_compute. reflexivity. Qed.

Example get_int_fallback :
  Get_int {[ "k" := "notanumber" ]} "k" 5 = Returns 5%Z.
Proof. vm_compute. reflexivity. Qed.

Example stoi_examples :
  stoi "  -42abc" = Returns (-42)%Z /\ stoi "2147483648" = Throws out_of_range
  /\ stoi "" = Throws invalid_argument /\ stoi "##0" = Throws invalid_argument.
Proof. vm_compute. repeat split. Qed.

(** * Properties *)

(** ** Strings *)

Section Strings.

Implicit Types (s t r : string) (c d : ascii).

Lemma app_nil_r s : s +:+ "" = s.
Proof. induction s as [|a s IH]; simpl; congruence. Qed.

Lemma app_assoc s t r : (s +:+ t) +:+ r = s +:+ t +:+ r.
Proof. induction s as [|a s IH]; simpl; congruence. Qed.

Lemma length_app s t :
  String.length (s +:+ t) = String.length s + String.length t.
Proof. induction s as [|a s IH]; simpl; congruence. Qed.

Lemma prefix_nil s : String.prefix "" s = true.
Proof. by destruct s. Qed.

Lemma has_char_app c s t :
  has_char c (s +:+ t) = has_char c s || has_char c t.
Proof.
  induction s as [|a s IH]; simpl; [done|].
  by destruct (decide (a = c)).
Qed.

Lemma str_take_app s t : str_take (String.length s) (s +:+ t) = s.
Proof. induction s as [|a s IH]; simpl; [by destruct t | congruence]. Qed.

Lemma str_take_all s : str_take (String.length s) s = s.
Proof. induction s as [|a s IH]; simpl; congruence. Qed.

Lemma str_drop_app s t : str_drop (String.length s) (s +:+ t) = t.
Proof. induction s as [|a s IH]; simpl; [by destruct t | congruence]. Qed.

Lemma back_app_char s c : back (s +:+ String c "") = Returns c.
Proof.
  induction s as [|a s IH]; simpl; [done|].
  destruct (s +:+ String c "") eqn:E; [by destruct s|done].
Qed.

Lemma pop_back_app_char s c : pop_back (s +:+ String c "") = s.
Proof.
  induction s as [|a s IH]; simpl; [done|].
  destruct (s +:+ String c "") eqn:E; [by destruct s|].
  by rewrite IH.
Qed.

Lemma pop_back_app s t : t ≠ "" → pop_back (s +:+ t) = s +:+ pop_back t.
Proof.
  intros Ht. induction s as [|a s IH]; simpl; [done|].
  destruct (s +:+ t) eqn:E.
  - destruct s; simpl in E; [contradiction|discriminate].
  - by rewrite IH.
Qed.

(** [find] of a single character succeeds exactly when it occurs. *)
Lemma find_char_None s c : find s (str1 c) = None ↔ has_char c s = false.
Proof.
  induction s as [|a s IH]; simpl; [done|].
  destruct (ascii_dec c a) as [->|Hne].
  - rewrite prefix_nil. destruct (decide (a = a)); [|done]. split; discriminate.
  - destruct (decide (a = c)) as [->|_]; [done|].
    destruct (find s (str1 c)); simpl.
    + split; [discriminate|]. intros H. apply IH in H. discriminate.
    + split; [|done]. intros _. by apply IH.
Qed.

Lemma find_char_Some s c :
  has_char c s = true → ∃ p, find s (str1 c) = Some p.
Proof.
  intros H. destruct (find s (str1 c)) as [p|] eqn:E; [by exists p|].
  apply find_char_None in E. congruence.
Qed.

End Strings.

(** ** Escaping

    [ReplaceAll] of a single character is a character-wise substitution;
    [ReplaceAll] of a two-character escape undoes it when the text had no
    such escape of its own. *)

Section Escaping.

Implicit Types (s t : string) (c d e : ascii).

Lemma replace_scan_char c dest s :
  replace_scan (str1 c) dest 0 s = subst_char c dest s.
Proof.
  induction s as [|a s IH]; simpl; [done|].
  destruct (ascii_dec c a) as [->|Hne].
  - rewrite prefix_nil, IH. by destruct (decide (a = a)).
  - rewrite IH. by destruct (decide (a = c)) as [->|].
Qed.

Lemma ReplaceAll_char c dest s :
  str1 c ≠ dest → ReplaceAll s (str1 c) dest = subst_char c dest s.
Proof.
  intros Hne. unfold ReplaceAll.
  destruct (decide (str1 c = dest)); [done|]. apply replace_scan_char.
Qed.

Lemma has_char_subst_other x c dest s :
  has_char x s = false → has_char x dest = false →
  has_char x (subst_char c dest s) = false.
Proof.
  intros Hs Hd. induction s as [|a s IH]; simpl in *; [done|].
  destruct (decide (a = x)); [done|].
  destruct (decide (a = c)).
  - rewrite has_char_app, Hd. by apply IH.
  - simpl. destruct (decide (a = x)); [done|]. by apply IH.
Qed.

Lemma has_char_subst_self c dest s :
  has_char c dest = false → has_char c (subst_char c dest s) = false.
Proof.
  intros Hd. induction s as [|a s IH]; simpl; [done|].
  destruct (decide (a = c)).
  - by rewrite has_char_app, Hd.
  - simpl. by destruct (decide (a = c)).
Qed.

Lemma has_pair_from_disarm a b s :
  has_pair_from a b true s = false → has_pair_from a b false s = false.
Proof. destruct s; simpl; [done|]. by intros [_ ?]%orb_false_elim. Qed.

(** Undoing the escape of [c] as [e d], when [c] is not the escape
    character itself. *)
Lemma unescape_subst c d e s :
  c ≠ e → d ≠ e →
  has_pair_from e d false s = false →
  replace_scan (String e (String d "")) (str1 c) 0
    (subst_char c (String e (String d "")) s) = s.
Proof.
  intros Hce Hde. induction s as [|a s IH]; simpl; [done|]. intros Hs.
  destruct (decide (a = c)) as [->|Hac].
  - simpl. destruct (ascii_dec e e); [|done]. destruct (ascii_dec d d); [|done].
    rewrite prefix_nil. simpl. f_equal. apply IH.
    by rewrite bool_decide_eq_false_2 in Hs.
  - simpl. destruct (ascii_dec e a) as [->|Hea].
    + rewrite bool_decide_eq_true_2 in Hs by done.
      assert (String.prefix (String d "") (subst_char c (String a (String d "")) s)
              = false) as ->.
      { destruct s as [|x s]; simpl in *; [done|].
        apply orb_false_elim in Hs as [Hx _].
        apply bool_decide_eq_false in Hx.
        destruct (decide (x = c)); simpl.
        - by destruct (ascii_dec d a).
        - destruct (ascii_dec d x); [by subst|done]. }
      f_equal. apply IH. by apply has_pair_from_disarm.
    + f_equal. apply IH. by rewrite bool_decide_eq_false_2 in Hs.
Qed.

(** Undoing the escape of the escape character. *)
Lemma unescape_subst_self e d s :
  replace_scan (String e (String d "")) (str1 e) 0
    (subst_char e (String e (String d "")) s) = s.
Proof.
  induction s as [|a s IH]; simpl; [done|].
  destruct (decide (a = e)) as [->|Hae].
  - simpl. destruct (ascii_dec e e); [|done]. destruct (ascii_dec d d); [|done].
    rewrite prefix_nil. simpl. by rewrite IH.
  - simpl. destruct (ascii_dec e a); [by subst|]. by rewrite IH.
Qed.

(** After the escape character was escaped as [e d'], no [e] is followed
    by another [d]. *)
Lemma no_pair_subst_self e d d' s :
  d' ≠ d → d' ≠ e →
  has_pair_from e d false (subst_char e (String e (String d' "")) s) = false.
Proof.
  intros Hd He. induction s as [|a s IH]; simpl; [done|].
  destruct (decide (a = e)) as [->|Hae]; simpl.
  - rewrite bool_decide_eq_true_2 by done.
    by rewrite !bool_decide_eq_false_2 by done.
  - by rewrite bool_decide_eq_false_2.
Qed.

(** Escaping another character as [e d'] creates no [e d]. *)
Lemma no_pair_subst_other c e d d' s armed :
  c ≠ e → d' ≠ d → d' ≠ e → d ≠ e →
  has_pair_from e d armed s = false →
  has_pair_from e d armed (subst_char c (String e (String d' "")) s) = false.
Proof.
  intros Hc Hd He Hde. revert armed.
  induction s as [|a s IH]; intros armed; simpl; [done|]. intros Hs.
  apply orb_false_elim in Hs as [Hhd Htl].
  destruct (decide (a = c)) as [->|Hac]; simpl.
  - rewrite bool_decide_eq_false_2 in Htl by done.
    rewrite (bool_decide_eq_false_2 (e = d)) by done.
    rewrite bool_decide_eq_true_2 by done.
    rewrite !bool_decide_eq_false_2 by done.
    rewrite andb_false_r. simpl. by apply IH.
  - rewrite Hhd. simpl. by apply IH.
Qed.

Lemma escape_subst s :
  escape s = subst_char ":" "$0" (subst_char "," "$1" (subst_char "$" "$2" s)).
Proof. unfold escape. by rewrite !ReplaceAll_char. Qed.

(** Decoding undoes encoding on every string. *)
Lemma unescape_escape s : unescape (escape s) = s.
Proof.
  rewrite escape_subst. unfold unescape, ReplaceAll.
  unfold KEY_VALUE_SEPARATOR_ESCAPE, PARAM_SEPARATOR_ESCAPE,
    ESCAPE_CHARACTER_ESCAPE, KEY_VALUE_SEPARATOR, PARAM_SEPARATOR,
    ESCAPE_CHARACTER.
  repeat match goal with
         | |- context [decide (?a = ?b)] => destruct (decide (a = b)); [done|]
         end.
  rewrite unescape_subst; [|done|done|].
  - rewrite unescape_subst; [|done|done|].
    + apply unescape_subst_self.
    + by apply no_pair_subst_self.
  - apply no_pair_subst_other; [done..|]. by apply no_pair_subst_self.
Qed.

Lemma escape_no_separator s c :
  c = PARAM_SEPARATOR ∨ c = KEY_VALUE_SEPARATOR →
  has_char c (escape s) = false.
Proof.
  rewrite escape_subst. intros [->| ->].
  - apply has_char_subst_other; [|done]. by apply has_char_subst_self.
  - by apply has_char_subst_self.
Qed.

(** Escaping inserts the escape character and the digits 0, 1 and 2 only. *)
Lemma escape_keeps_absent s c :
  has_char c "$012" = false → has_char c s = false →
  has_char c (escape s) = false.
Proof.
  intros Hc Hs. rewrite escape_subst. simpl in Hc.
  repeat match type of Hc with
         | context [decide (?a = c)] => destruct (decide (a = c)); [done|]
         end.
  repeat apply has_char_subst_other; try done;
    simpl; repeat destruct (decide _); done.
Qed.

End Escaping.

(** ** Splitting and joining *)

Section Splitting.

Implicit Types (s t : string) (c d : ascii) (ps : list string).

Lemma SplitString_not_nil s d : SplitString s d ≠ [].
Proof.
  induction s as [|a s IH]; simpl; [done|].
  destruct (decide (a = d)); [done|]. by destruct (SplitString s d).
Qed.

Lemma SplitString_absent s d : has_char d s = false → SplitString s d = [s].
Proof.
  induction s as [|a s IH]; simpl; [done|].
  destruct (decide (a = d)); [done|]. intros H. by rewrite IH.
Qed.

Lemma SplitString_app s t d :
  has_char d s = false →
  SplitString (s +:+ String d t) d = s :: SplitString t d.
Proof.
  induction s as [|a s IH]; simpl.
  - intros _. by destruct (decide (d = d)).
  - destruct (decide (a = d)); [done|]. intros H. by rewrite IH.
Qed.

Lemma SplitString_join ps d :
  ps ≠ [] → Forall (fun p => has_char d p = false) ps →
  SplitString (join (str1 d) ps) d = ps.
Proof.
  intros Hne Hall. induction Hall as [|p ps Hp Hps IH]; [done|].
  destruct ps as [|q ps]; simpl.
  - by apply SplitString_absent.
  - unfold str1 at 1. simpl. rewrite SplitString_app by done.
    f_equal. by apply IH.
Qed.

Lemma has_char_join x sep ps :
  has_char x sep = false → Forall (fun p => has_char x p = false) ps →
  has_char x (join sep ps) = false.
Proof.
  intros Hsep Hall. induction Hall as [|p ps Hp Hps IH]; [done|].
  destruct ps as [|q ps]; [done|].
  change (join sep (p :: q :: ps)) with (p +:+ sep +:+ join sep (q :: ps)).
  by rewrite !has_char_app, Hp, Hsep, IH.
Qed.

End Splitting.

(** ** The two searches and the loops around them *)

Section Placeholders.

Implicit Types (s t : string) (c d : ascii) (lookup : list table_entry).

Lemma list_match_here_head s :
  list_match_here s ≠ None → ∃ r, s = String "[" r.
Proof.
  destruct s as [|a s]; simpl; [done|].
  destruct (decide (a = "["%char)) as [->|]; [eauto|done].
Qed.

Lemma regex_search_LIST_MATCH_bracket_free s :
  bracket_free s → regex_search_LIST_MATCH s = None.
Proof.
  unfold bracket_free. induction s as [|a s IH]; simpl; [done|].
  destruct (decide (a = "["%char)); [done|]. auto.
Qed.

Lemma PlaceholderifyData_no_match s lookup :
  regex_search_LIST_MATCH s = None →
  PlaceholderifyData s lookup = Returns (s, lookup).
Proof. intros H. unfold PlaceholderifyData. simpl. by rewrite H. Qed.

Lemma ReplacePlaceholders_no_match s lookup :
  placeholder_free s → ReplacePlaceholders s lookup = Returns s.
Proof. intros H. unfold ReplacePlaceholders. simpl. by rewrite H. Qed.

(** The sub-matches of the placeholder expression: the whole match, which
    starts with [##], then the digits. *)
Lemma regex_search_placeholder_Some s m :
  regex_search_placeholder s = Some m →
  ∃ ds, m = [String "#" (String "#" ds); ds].
Proof.
  induction s as [|a s IH]; [done|].
  cbn [regex_search_placeholder].
  destruct (placeholder_here (String a s)) as [m'|] eqn:E; [|exact IH].
  intros [= <-]. unfold placeholder_here in E.
  destruct s as [|b r]; [done|].
  destruct (decide (a = "#"%char)); [|done].
  destruct (decide (b = "#"%char)); [|done].
  destruct (take_digits r) as [|x ds]; [done|]. injection E as <-. eauto.
Qed.

Lemma stoi_hash r : stoi (String "#" r) = Throws invalid_argument.
Proof. reflexivity. Qed.

(** The first sub-match the loop body visits is the whole match, and
    [std::stoi] rejects its leading [#]: once the search succeeds, the call
    leaves through [std::invalid_argument], whatever the lookup table. *)
Lemma ReplacePlaceholders_match s lookup :
  ¬ placeholder_free s →
  ReplacePlaceholders s lookup = Throws invalid_argument.
Proof.
  unfold placeholder_free, ReplacePlaceholders. intros H. simpl.
  destruct (regex_search_placeholder s) as [m|] eqn:E; [|done].
  apply regex_search_placeholder_Some in E as [ds ->]. reflexivity.
Qed.

(** The unrolling bound is not what ends the loop. *)
Lemma ReplacePlaceholders_fuel n s lookup :
  ReplacePlaceholders_loop (S n) s lookup = ReplacePlaceholders s lookup.
Proof.
  unfold ReplacePlaceholders. simpl.
  destruct (regex_search_placeholder s) as [m|] eqn:E; [|done].
  apply regex_search_placeholder_Some in E as [ds ->]. reflexivity.
Qed.

Lemma placeholder_here_None s :
  placeholder_here s = None ↔ starts_token s = false.
Proof.
  unfold placeholder_here, starts_token.
  destruct s as [|a [|b r]]; [done..|].
  destruct (decide (a = "#"%char)); [|by rewrite bool_decide_eq_false_2].
  destruct (decide (b = "#"%char));
    [|by rewrite (bool_decide_eq_false_2 (b = _)), andb_false_r].
  rewrite !bool_decide_eq_true_2 by done. simpl.
  destruct r as [|c r]; simpl; [done|]. by destruct (isdigit c).
Qed.

Lemma placeholder_from_2 s :
  placeholder_from 2 s = starts_digit s || placeholder_from 1 s.
Proof. destruct s as [|c s]; simpl; [done|]. by destruct (decide (c = "#"%char)). Qed.

Lemma placeholder_from_1 s :
  placeholder_from 1 s =
  match s with
  | String a r => bool_decide (a = "#"%char) && starts_digit r
  | "" => false
  end || placeholder_from 0 s.
Proof.
  destruct s as [|a s]; simpl; [done|].
  destruct (decide (a = "#"%char)) as [->|]; simpl.
  - by rewrite placeholder_from_2.
  - by rewrite bool_decide_eq_false_2.
Qed.

Lemma placeholder_from_0 a s :
  placeholder_from 0 (String a s) = starts_token (String a s) || placeholder_from 0 s.
Proof.
  simpl. destruct (decide (a = "#"%char)) as [->|]; simpl.
  - rewrite placeholder_from_1. by destruct s.
  - rewrite bool_decide_eq_false_2 by done. by destruct s.
Qed.

Lemma placeholder_free_scan s :
  placeholder_free s ↔ placeholder_from 0 s = false.
Proof.
  unfold placeholder_free. induction s as [|a s IH]; [done|].
  rewrite placeholder_from_0. cbn [regex_search_placeholder].
  destruct (placeholder_here (String a s)) eqn:E.
  - split; [done|]. intros [H _]%orb_false_elim.
    apply placeholder_here_None in H. congruence.
  - apply placeholder_here_None in E. by rewrite E.
Qed.

(** Escaping neither creates nor removes a placeholder token. *)
Lemma placeholder_from_subst c e st s :
  c ≠ "#"%char → isdigit c = false → e ≠ "#"%char →
  placeholder_from st (subst_char c (String "$" (String e "")) s)
  = placeholder_from st s.
Proof.
  intros Hc Hd He. revert st. induction s as [|a s IH]; intros st; simpl; [done|].
  destruct (decide (a = c)) as [->|Hac]; simpl.
  - rewrite Hd, !andb_false_r. simpl.
    destruct (decide (e = "#"%char)); [done|].
    destruct (decide (c = "#"%char)); [done|]. apply IH.
  - by rewrite IH.
Qed.

Lemma placeholder_free_escape s : placeholder_free s → placeholder_free (escape s).
Proof.
  rewrite !placeholder_free_scan, escape_subst.
  by rewrite !placeholder_from_subst.
Qed.

(** A separator that is neither [#] nor a digit keeps the two sides apart. *)
Lemma placeholder_from_app st s d t :
  d ≠ "#"%char → isdigit d = false →
  placeholder_from st (s +:+ String d t)
  = placeholder_from st s || placeholder_from 0 t.
Proof.
  intros Hd Hdig. revert st. induction s as [|a s IH]; intros st; simpl.
  - rewrite Hdig, andb_false_r. simpl. by destruct (decide (d = "#"%char)).
  - by rewrite IH, orb_assoc.
Qed.

Lemma placeholder_free_app s d t :
  d ≠ "#"%char → isdigit d = false →
  placeholder_free s → placeholder_free t →
  placeholder_free (s +:+ String d t).
Proof.
  rewrite !placeholder_free_scan. intros Hd Hdig Hs Ht.
  by rewrite placeholder_from_app, Hs, Ht.
Qed.

End Placeholders.

(** ** The loops end by themselves

    Each round of [PlaceholderifyData] replaces a match, which starts with
    an opening bracket, by a token that has none. *)

Section Termination.

Implicit Types (s t pat : string) (c : ascii) (lookup : list table_entry).

Lemma count_char_app c s t :
  count_char c (s +:+ t) = count_char c s + count_char c t.
Proof. induction s as [|a s IH]; simpl; [done|]. rewrite IH. lia. Qed.

Lemma count_char_length c s : count_char c s ≤ String.length s.
Proof. induction s as [|a s IH]; simpl; [done|]. destruct (decide (a = c)); lia. Qed.

Lemma count_char_absent c s : has_char c s = false → count_char c s = 0.
Proof.
  induction s as [|a s IH]; simpl; [done|]. by destruct (decide (a = c)).
Qed.

Lemma str_take_drop n s : str_take n s +:+ str_drop n s = s.
Proof.
  revert s. induction n as [|n IH]; intros [|a s]; simpl; try done.
  by rewrite IH.
Qed.

Lemma str_drop_add n m s : str_drop (n + m) s = str_drop m (str_drop n s).
Proof.
  revert s. induction n as [|n IH]; intros [|a s]; simpl; try done.
  by destruct m.
Qed.

Lemma prefix_app pat t :
  String.prefix pat t = true → t = pat +:+ str_drop (String.length pat) t.
Proof.
  revert t. induction pat as [|a pat IH]; intros [|b t]; simpl; try done.
  destruct (ascii_dec a b) as [->|]; [|done]. intros H. f_equal. by apply IH.
Qed.

Lemma find_Some s pat p :
  find s pat = Some p → String.prefix pat (str_drop p s) = true.
Proof.
  revert p. induction s as [|a s IH]; intros p; cbn [find].
  - destruct (String.prefix pat "") eqn:E; [|done]. intros [= <-]. exact E.
  - destruct (String.prefix pat (String a s)) eqn:E.
    + intros [= <-]. exact E.
    + destruct (find s pat) as [q|]; cbn [fmap option_fmap option_map]; [|done].
      intros [= <-]. cbn [str_drop]. by apply IH.
Qed.

Lemma has_char_string_of_uint c u :
  isdigit c = false → has_char c (NilEmpty.string_of_uint u) = false.
Proof.
  intros Hc. induction u; simpl; [done|..];
    (destruct (decide (_ = c)) as [<-|]; [done|apply IHu]).
Qed.

Lemma regex_search_LIST_MATCH_Some s m :
  regex_search_LIST_MATCH s = Some m →
  ∃ x, m = [String "[" x].
Proof.
  induction s as [|a s IH]; [done|]. cbn [regex_search_LIST_MATCH].
  destruct (list_match_here (String a s)) as [m0|] eqn:E; [|exact IH].
  intros [= <-]. unfold list_match_here in E.
  destruct (decide (a = "["%char)); [|done].
  destruct (lazy_body s); [injection E as <-; eauto|].
  destruct s as [|a' s']; [done|]. destruct (decide (a' = "["%char)); [|done].
  destruct (lazy_body s'); [|done]. injection E as <-. eauto.
Qed.

(** One round: the call to [replace] either throws or leaves a string with
    fewer opening brackets. *)
Lemma placeholderify_step_decreases s lookup x s' lookup' :
  placeholderify_step (s, lookup) (String "[" x) = Returns (s', lookup') →
  count_char "[" s' < count_char "[" s.
Proof.
  unfold placeholderify_step, replace.
  destruct (find s (String "[" x)) as [p|] eqn:Hfind; [|done].
  destruct (String.length s <? p); [done|].
  cbn [mbind mret outcome_bind outcome_ret]. intros [= <- _].
  apply find_Some, prefix_app in Hfind.
  pose proof (f_equal (count_char "[") (str_take_drop p s)) as Hsplit.
  apply (f_equal (count_char "[")) in Hfind.
  rewrite count_char_app in Hsplit, Hfind.
  assert (1 ≤ count_char "[" (String "[" x)) as Hx by (simpl; lia).
  cbn [String.length] in Hfind.
  rewrite !count_char_app, str_drop_add. cbn [count_char].
  destruct (decide ("#"%char = "["%char)); [done|].
  rewrite count_char_app, (count_char_absent _ (to_string _))
    by by apply has_char_string_of_uint.
  lia.
Qed.

Lemma lazy_body_prefix s b : lazy_body s = Some b → String.prefix b s = true.
Proof.
  revert b. induction s as [|a s IH]; intros b; simpl; [done|].
  destruct (decide (a = "]"%char)) as [->|].
  { intros [= <-]. simpl. by rewrite prefix_nil. }
  destruct (decide (a = "["%char)); [done|].
  destruct (lazy_body s) as [b'|]; [|done]. intros [= <-]. simpl.
  destruct (ascii_dec a a); [|done]. by apply IH.
Qed.

Lemma list_match_here_prefix s x :
  list_match_here s = Some x → String.prefix x s = true.
Proof.
  unfold list_match_here. destruct s as [|a s]; [done|].
  destruct (decide (a = "["%char)) as [->|]; [|done].
  destruct (lazy_body s) as [b|] eqn:E.
  { intros [= <-]. simpl. by apply lazy_body_prefix. }
  destruct s as [|a' s']; [done|].
  destruct (decide (a' = "["%char)) as [->|]; [|done].
  destruct (lazy_body s') as [b|] eqn:E'; [|done].
  intros [= <-]. simpl. by apply lazy_body_prefix.
Qed.

(** The match is a piece of the string searched. *)
Lemma regex_search_LIST_MATCH_occurs s m :
  regex_search_LIST_MATCH s = Some m →
  ∃ x i, m = [x] ∧ String.prefix x (str_drop i s) = true.
Proof.
  induction s as [|a s IH]; [done|]. cbn [regex_search_LIST_MATCH].
  destruct (list_match_here (String a s)) as [m0|] eqn:E.
  - intros [= <-]. exists m0, 0. split; [done|]. by apply list_match_here_prefix.
  - intros (x & i & -> & Hi)%IH. by exists x, (S i).
Qed.

(** [find] does find what occurs, so the [replace] of a round gets a
    position within the string. *)
Lemma find_complete s pat i :
  String.prefix pat (str_drop i s) = true →
  ∃ p, find s pat = Some p ∧ p ≤ String.length s.
Proof.
  revert i. induction s as [|a s IH]; intros i Hi; cbn [find].
  - assert (str_drop i "" = "") as E by by destruct i.
    rewrite E in Hi. rewrite Hi. exists 0. by split.
  - destruct (String.prefix pat (String a s)) eqn:E.
    { exists 0. split; [done|]. simpl. lia. }
    destruct i as [|i]; [cbn [str_drop] in Hi; congruence|].
    destruct (IH i Hi) as (p & -> & Hp). exists (S p). split; [done|]. simpl. lia.
Qed.

Lemma placeholderify_step_returns s lookup m :
  regex_search_LIST_MATCH s = Some m →
  ∃ x s', m = [x]
          ∧ placeholderify_step (s, lookup) x
            = Returns (s', lookup ++ [Indeterminate]).
Proof.
  intros (x & i & -> & Hi)%regex_search_LIST_MATCH_occurs.
  apply find_complete in Hi as (p & Hp & Hle).
  exists x. unfold placeholderify_step, replace. rewrite Hp.
  apply Nat.ltb_ge in Hle. rewrite Hle. eauto.
Qed.

(** The loop returns, within the bound of the model. *)
Lemma PlaceholderifyData_loop_returns fuel s lookup :
  count_char "[" s < fuel →
  ∃ result, PlaceholderifyData_loop fuel s lookup = Returns result.
Proof.
  revert s lookup. induction fuel as [|fuel IH]; intros s lookup Hlt; [lia|].
  cbn [PlaceholderifyData_loop].
  destruct (regex_search_LIST_MATCH s) as [m|] eqn:E; [|eauto].
  pose proof (regex_search_LIST_MATCH_Some _ _ E) as [y Hy].
  destruct (placeholderify_step_returns s lookup m E) as (x & s' & -> & Hstep).
  injection Hy as ->. cbn [for_each]. rewrite Hstep.
  cbn [mbind outcome_bind fst snd]. apply IH.
  apply placeholderify_step_decreases in Hstep. lia.
Qed.

(** [PlaceholderifyData] is total. *)
Lemma PlaceholderifyData_returns s lookup :
  ∃ result, PlaceholderifyData s lookup = Returns result.
Proof.
  apply PlaceholderifyData_loop_returns.
  pose proof (count_char_length "[" s). lia.
Qed.

Lemma to_string_starts_digit n t : starts_digit (to_string n +:+ t) = true.
Proof.
  unfold to_string.
  assert (Nat.to_uint n ≠ Decimal.Nil) as Hne.
  { unfold Nat.to_uint. intros H%rev_nil_inv. revert H.
    assert (∀ acc, acc ≠ Decimal.Nil → Nat.to_little_uint n acc ≠ Decimal.Nil)
      as Hacc; [|by apply Hacc].
    induction n as [|n IHn]; intros acc Hacc; simpl; [done|].
    apply IHn. by destruct acc. }
  by destruct (Nat.to_uint n).
Qed.

(** More [#] read so far can only help the scan. *)
Lemma placeholder_from_mono st s :
  placeholder_from 0 s = true → placeholder_from st s = true.
Proof.
  destruct s as [|c s]; [done|]. cbn [placeholder_from].
  rewrite andb_false_l, orb_false_l.
  destruct (decide (c = "#"%char)); [|intros ->; apply orb_true_r].
  change (Nat.min 2 1) with 1. intros H1.
  destruct st as [|[|st]]; simpl.
  - done.
  - by rewrite placeholder_from_2, H1, orb_true_r.
  - by rewrite placeholder_from_2, H1, !orb_true_r.
Qed.

Lemma placeholder_from_app_r st s t :
  placeholder_from 0 t = true → placeholder_from st (s +:+ t) = true.
Proof.
  intros Ht. revert st. induction s as [|a s IH]; intros st.
  - by apply placeholder_from_mono.
  - simpl. by rewrite IH, orb_true_r.
Qed.

(** A round leaves its token in the string. *)
Lemma placeholderify_step_token s lookup x s' lookup' :
  placeholderify_step (s, lookup) x = Returns (s', lookup') →
  ¬ placeholder_free s'.
Proof.
  unfold placeholderify_step, replace.
  destruct (find s x) as [p|]; [|done].
  destruct (String.length s <? p); [done|].
  cbn [mbind mret outcome_bind outcome_ret]. intros [= <- _].
  rewrite placeholder_free_scan, placeholder_from_app_r; [done|].
  simpl. by rewrite placeholder_from_2, to_string_starts_digit.
Qed.

(** After one round or more, the masked string has a token. *)
Lemma PlaceholderifyData_loop_token fuel s lookup s' lookup' :
  regex_search_LIST_MATCH s ≠ None →
  PlaceholderifyData_loop fuel s lookup = Returns (s', lookup') →
  ¬ placeholder_free s'.
Proof.
  revert s lookup. induction fuel as [|fuel IH]; intros s lookup Hm; [done|].
  cbn [PlaceholderifyData_loop].
  destruct (regex_search_LIST_MATCH s) as [m|] eqn:E; [|done].
  destruct (placeholderify_step_returns s lookup m E) as (x & s1 & -> & Hstep).
  cbn [for_each]. rewrite Hstep. cbn [mbind outcome_bind fst snd].
  destruct (regex_search_LIST_MATCH s1) eqn:E1.
  - apply IH. congruence.
  - destruct fuel; [done|]. cbn [PlaceholderifyData_loop]. rewrite E1.
    intros [= <- _]. by eapply placeholderify_step_token.
Qed.


(** [ReplacePlaceholders] returns at once or throws at once. *)
Lemma ReplacePlaceholders_terminates s lookup :
  ReplacePlaceholders s lookup ≠ OutOfFuel.
Proof.
  destruct (regex_search_placeholder s) eqn:E.
  - rewrite ReplacePlaceholders_match; [done|]. unfold placeholder_free. congruence.
  - by rewrite ReplacePlaceholders_no_match.
Qed.

(** Masking followed by unmasking: when the string has a bracketed region,
    [PlaceholderifyData] returns a string on which [ReplacePlaceholders]
    throws. *)
Lemma PlaceholderifyData_then_ReplacePlaceholders s lookup :
  regex_search_LIST_MATCH s ≠ None →
  ∃ s' lookup', PlaceholderifyData s lookup = Returns (s', lookup')
                ∧ ReplacePlaceholders s' lookup' = Throws invalid_argument.
Proof.
  intros Hm. destruct (PlaceholderifyData_returns s lookup) as [[s' lookup'] H].
  exists s', lookup'. split; [done|].
  apply ReplacePlaceholders_match. by eapply PlaceholderifyData_loop_token.
Qed.

End Termination.

(** ** The container and its text form *)

Section Container.

Implicit Types (data : DataType) (k v s : string) (pair : string * string)
  (l : list (string * string)) (lookup : list table_entry).

Lemma entries_Permutation data : entries data ≡ₚ map_to_list data.
Proof. apply merge_sort_Permutation. Qed.

(** [entries] lists the pairs by ascending key, as the iteration of a
    [std::map] does. *)
Lemma entries_sorted data : StronglySorted key_order (entries data).
Proof.
  apply StronglySorted_merge_sort.
  - intros p q r. unfold key_order. apply transitivity.
  - intros p q. unfold key_order. apply total, _.
Qed.

Lemma entries_nil data : entries data = [] ↔ data = ∅.
Proof.
  rewrite <-map_to_list_empty_iff. split; intros H.
  - apply Permutation_nil_r. by rewrite <-entries_Permutation, H.
  - apply Permutation_nil_r. by rewrite entries_Permutation, H.
Qed.

Lemma elem_of_entries data k v : (k, v) ∈ entries data ↔ data !! k = Some v.
Proof. by rewrite entries_Permutation, elem_of_map_to_list. Qed.

Lemma NoDup_entries data : NoDup (entries data).*1.
Proof. rewrite entries_Permutation. apply NoDup_fst_map_to_list. Qed.

Lemma length_entries data : length (entries data) = size data.
Proof. by rewrite entries_Permutation, length_map_to_list. Qed.

(** What the loop of [Serialize] leaves once the trailing separator is
    popped. *)
Lemma Serialize_loop l acc :
  l ≠ [] →
  pop_back
    (foldl (fun result pair =>
              result +:+ (escape pair.1 +:+ str1 KEY_VALUE_SEPARATOR +:+
                          escape pair.2 +:+ str1 PARAM_SEPARATOR))
           acc l)
  = acc +:+ join (str1 PARAM_SEPARATOR) (encode_pair <$> l).
Proof.
  revert acc. induction l as [|p l IH]; intros acc Hne; [done|].
  destruct l as [|q l].
  - cbn [foldl fmap list_fmap join]. unfold encode_pair.
    rewrite <-!app_assoc. apply pop_back_app_char.
  - change (foldl ?f acc (p :: q :: l)) with (foldl f (f acc p) (q :: l)).
    rewrite IH by done. cbn [fmap list_fmap join]. unfold encode_pair.
    by rewrite !app_assoc.
Qed.

Lemma Serialize_nonempty data :
  data ≠ ∅ →
  Serialize data = join (str1 PARAM_SEPARATOR) (encode_pair <$> entries data).
Proof.
  intros Hne. unfold Serialize. destruct (decide (data = ∅)); [done|].
  rewrite Serialize_loop; [done|]. by rewrite entries_nil.
Qed.

Lemma Serialize_singleton k v :
  Serialize {[ k := v ]} = encode_pair (k, v).
Proof.
  rewrite Serialize_nonempty by apply map_non_empty_singleton.
  assert (entries {[ k := v ]} = [(k, v)]) as ->; [|done].
  apply Permutation_singleton_r.
  by rewrite entries_Permutation, map_to_list_singleton.
Qed.

Lemma Serialize_empty : Serialize ∅ = EMPTY_PLACEHOLDER.
Proof. reflexivity. Qed.

Lemma has_char_encode_pair c pair :
  c ≠ KEY_VALUE_SEPARATOR → has_char c "$012" = false →
  has_char c pair.1 = false → has_char c pair.2 = false →
  has_char c (encode_pair pair) = false.
Proof.
  intros Hc Hesc H1 H2. unfold encode_pair.
  rewrite !has_char_app, !escape_keeps_absent by done. simpl.
  by destruct (decide (KEY_VALUE_SEPARATOR = c)).
Qed.

Lemma encode_pair_no_param_separator pair :
  has_char PARAM_SEPARATOR (encode_pair pair) = false.
Proof.
  unfold encode_pair.
  by rewrite !has_char_app, !escape_no_separator by auto.
Qed.

Lemma SplitString_encode_pair pair :
  SplitString (encode_pair pair) KEY_VALUE_SEPARATOR
  = [escape pair.1; escape pair.2].
Proof.
  unfold encode_pair, str1. simpl.
  rewrite SplitString_app by (apply escape_no_separator; auto).
  by rewrite SplitString_absent by (apply escape_no_separator; auto).
Qed.

Lemma parse_pair_encode data pair :
  parse_pair data (encode_pair pair) = <[pair.1 := pair.2]> data.
Proof.
  unfold parse_pair. rewrite SplitString_encode_pair.
  unfold Set_string. by rewrite !unescape_escape.
Qed.

Lemma foldl_parse_pair_encode l data :
  foldl parse_pair data (encode_pair <$> l)
  = foldl (fun d pair => <[pair.1 := pair.2]> d) data l.
Proof.
  revert data. induction l as [|p l IH]; intros data; simpl; [done|].
  by rewrite parse_pair_encode, IH.
Qed.

Lemma foldl_insert_union l data :
  NoDup l.*1 →
  foldl (fun d pair => <[pair.1 := pair.2]> d) data l
  = (list_to_map l : DataType) ∪ data.
Proof.
  revert data. induction l as [|[k v] l IH]; intros data Hnd; simpl.
  - by rewrite (left_id_L ∅ (∪)).
  - apply NoDup_cons in Hnd as [Hk Hnd]. rewrite IH by done.
    rewrite <-insert_union_l. symmetry. apply insert_union_r.
    by apply not_elem_of_list_to_map_1.
Qed.

Lemma foldl_insert_entries data :
  foldl (fun d pair => <[pair.1 := pair.2]> d) ∅ (entries data) = data.
Proof.
  rewrite foldl_insert_union by apply NoDup_entries.
  rewrite (right_id_L ∅ (∪)).
  rewrite (list_to_map_proper _ (map_to_list data)).
  - apply list_to_map_to_list.
  - apply NoDup_entries.
  - apply entries_Permutation.
Qed.

Lemma restore_values_plain lookup data :
  (∀ k v, data !! k = Some v → placeholder_free v) →
  restore_values lookup data = Returns data.
Proof.
  intros Hfree. unfold restore_values.
  assert (Forall (fun pair => data !! pair.1 = Some pair.2) (entries data)) as Hin.
  { apply Forall_forall. intros [k v] H. by apply elem_of_entries. }
  induction Hin as [|[k v] l Hkv Hl IH]; simpl in *; [done|].
  rewrite ReplacePlaceholders_no_match by eauto. simpl.
  by rewrite insert_id.
Qed.

(** Decoding what [Serialize] wrote gives the container back, when no key
    or value has an opening bracket and no value has a [##N] token. *)
Lemma ParamPackage_Serialize data :
  (∀ k v, data !! k = Some v →
          bracket_free k ∧ bracket_free v ∧ placeholder_free v) →
  ParamPackage (Serialize data) = Returns data.
Proof.
  intros Hplain. destruct (decide (data = ∅)) as [->|Hne]; [done|].
  rewrite Serialize_nonempty by done.
  set (text := join _ _).
  assert (bracket_free text) as Hfree.
  { apply has_char_join; [done|]. apply Forall_fmap, Forall_forall.
    intros [k v] Hkv%elem_of_entries. apply Hplain in Hkv as (? & ? & _).
    by apply has_char_encode_pair. }
  unfold ParamPackage.
  destruct (decide (text = EMPTY_PLACEHOLDER)) as [E|_].
  { unfold bracket_free in Hfree. by rewrite E in Hfree. }
  rewrite PlaceholderifyData_no_match
    by by apply regex_search_LIST_MATCH_bracket_free.
  simpl. unfold text. rewrite SplitString_join.
  - rewrite foldl_parse_pair_encode, foldl_insert_entries.
    apply restore_values_plain. intros k v Hkv.
    by destruct (Hplain _ _ Hkv) as (_ & _ & ?).
  - intros E%fmap_nil_inv. by apply entries_nil in E.
  - apply Forall_fmap, Forall_forall. intros pair _.
    apply encode_pair_no_param_separator.
Qed.

End Container.

(** ** Bracketed values and typed reads *)

Section Getters.

Implicit Types (data : DataType) (s inner key second : string) (c : ascii).

Lemma is_bracketed_wrap inner :
  is_bracketed ("[" +:+ inner +:+ "]") = Returns true.
Proof.
  unfold is_bracketed.
  change ("[" +:+ inner +:+ "]") with (String "[" inner +:+ String "]" "").
  by rewrite back_app_char.
Qed.

Lemma strip_brackets_wrap inner :
  strip_brackets ("[" +:+ inner +:+ "]") = Returns inner.
Proof.
  unfold strip_brackets, substr. simpl. rewrite length_app. simpl.
  replace (String.length inner + 1 - 1) with (String.length inner) by lia.
  by rewrite str_take_app.
Qed.

(** The subtraction in [strip_brackets] does not wrap around. *)
Lemma is_bracketed_length s : is_bracketed s = Returns true → 2 ≤ String.length s.
Proof.
  destruct s as [|a [|b r]]; simpl; [done| |lia].
  unfold is_bracketed. simpl. by destruct (decide (a = "["%char)) as [->|].
Qed.

Lemma stoi_total s : (∃ n, stoi s = Returns n) ∨ (∃ e, stoi s = Throws e).
Proof. unfold stoi. repeat case_match; eauto. Qed.

Lemma Get_ints_loop_failure default_value vec vec0 str e :
  str ∈ vec0 → stoi str = Throws e →
  Get_ints_loop default_value vec vec0 = Returns default_value.
Proof.
  intros Hin Hstr. revert vec.
  induction Hin as [str rest|str y rest Hin IH]; intros vec;
    cbn [Get_ints_loop].
  - by rewrite Hstr.
  - destruct (stoi_total y) as [[n ->]|[e' ->]]; [by apply IH|done].
Qed.

Lemma Get_ints_loop_success default_value vec vec0 ints :
  Forall2 (fun str n => stoi str = Returns n) vec0 ints →
  Get_ints_loop default_value vec vec0 = Returns (vec ++ ints).
Proof.
  intros Hall. revert vec.
  induction Hall as [|str n rest ints Hstr _ IH]; intros vec;
    cbn [Get_ints_loop].
  - by rewrite (right_id_L [] (++)).
  - rewrite Hstr, IH. by rewrite <-(assoc_L (++)).
Qed.

Lemma has_char_Serialize c data :
  data ≠ ∅ → c ≠ KEY_VALUE_SEPARATOR → c ≠ PARAM_SEPARATOR →
  has_char c "$012" = false →
  (∀ k v, data !! k = Some v → has_char c k = false ∧ has_char c v = false) →
  has_char c (Serialize data) = false.
Proof.
  intros Hne Hkv Hp Hesc Hall. rewrite Serialize_nonempty by done.
  apply has_char_join.
  - simpl. by destruct (decide (PARAM_SEPARATOR = c)).
  - apply Forall_fmap, Forall_forall.
    intros [k v] [??]%elem_of_entries%Hall. by apply has_char_encode_pair.
Qed.

Lemma placeholder_free_join c ps :
  c ≠ "#"%char → isdigit c = false →
  Forall placeholder_free ps → placeholder_free (join (str1 c) ps).
Proof.
  intros Hc Hdig Hall. induction Hall as [|p ps Hp Hps IH]; [done|].
  destruct ps as [|q ps]; [done|].
  change (join (str1 c) (p :: q :: ps))
    with (p +:+ String c (join (str1 c) (q :: ps))).
  by apply placeholder_free_app.
Qed.

Lemma placeholder_free_Serialize data :
  data ≠ ∅ →
  (∀ k v, data !! k = Some v → placeholder_free k ∧ placeholder_free v) →
  placeholder_free (Serialize data).
Proof.
  intros Hne Hall. rewrite Serialize_nonempty by done.
  apply placeholder_free_join; [done..|].
  apply Forall_fmap, Forall_forall.
  intros [k v] [??]%elem_of_entries%Hall.
  apply placeholder_free_app; [done..| |]; by apply placeholder_free_escape.
Qed.

(** The text of a non-empty container without opening bracket fails the
    bracket test of the getters. *)
Lemma is_bracketed_Serialize data :
  data ≠ ∅ →
  (∀ k v, data !! k = Some v → bracket_free k ∧ bracket_free v) →
  is_bracketed (Serialize data) = Returns false.
Proof.
  intros Hne Hall.
  assert (bracket_free (Serialize data)) as Hfree.
  { by apply has_char_Serialize. }
  assert (has_char KEY_VALUE_SEPARATOR (Serialize data) = true) as Hsep.
  { rewrite Serialize_nonempty by done.
    destruct (entries data) as [|p l] eqn:E; [by apply entries_nil in E|].
    cbn [fmap list_fmap]. unfold encode_pair at 1.
    destruct (encode_pair <$> l); cbn [join]; rewrite !has_char_app; simpl;
      by rewrite orb_true_r. }
  unfold is_bracketed, bracket_free in *.
  destruct (Serialize data) as [|a s]; [done|]. simpl in *.
  by destruct (decide (a = "["%char)).
Qed.

(** Two entries or more: the text has a pair separator. *)
Lemma Serialize_has_param_separator data :
  2 ≤ size data → has_char PARAM_SEPARATOR (Serialize data) = true.
Proof.
  intros Hsize. rewrite Serialize_nonempty.
  - rewrite <-length_entries in Hsize.
    destruct (entries data) as [|p [|q l]]; simpl in Hsize; [lia..|].
    cbn [fmap list_fmap]. 
    change (join ?sep (?x :: ?y :: ?r)) with (x +:+ sep +:+ join sep (y :: r)).
    rewrite !has_char_app. simpl. by rewrite orb_true_r.
  - intros ->. rewrite map_size_empty in Hsize. lia.
Qed.

End Getters.

(** ** Skipping malformed pairs *)

Lemma foldl_parse_pair_skip before bad after data :
  length (SplitString bad KEY_VALUE_SEPARATOR) ≠ 2 →
  foldl parse_pair data (before ++ bad :: after)
  = foldl parse_pair data (before ++ after).
Proof.
  intros Hbad. rewrite !foldl_app. cbn [foldl]. f_equal.
  unfold parse_pair.
  destruct (SplitString bad KEY_VALUE_SEPARATOR) as [|k [|v [|x l]]]; done.
Qed.

(** The constructor on a text without opening bracket: split, then parse
    pair by pair. *)
Lemma ParamPackage_bracket_free pairs :
  pairs ≠ [] →
  Forall (fun pair => has_char PARAM_SEPARATOR pair = false ∧ bracket_free pair)
         pairs →
  ParamPackage (join (str1 PARAM_SEPARATOR) pairs)
  = restore_values [] (foldl parse_pair ∅ pairs).
Proof.
  intros Hne Hall.
  assert (bracket_free (join (str1 PARAM_SEPARATOR) pairs)) as Hfree.
  { apply has_char_join; [done|]. eapply Forall_impl; [exact Hall|]. by intros ? []. }
  unfold ParamPackage. destruct (decide _) as [E|_].
  { unfold bracket_free in Hfree. by rewrite E in Hfree. }
  rewrite PlaceholderifyData_no_match
    by by apply regex_search_LIST_MATCH_bracket_free.
  simpl. rewrite SplitString_join; [done..|].
  eapply Forall_impl; [exact Hall|]. by intros ? [].
Qed.

(** * The format, claim by claim *)

(** C1. Nested-container round trip within one container.  The setter for
    a nested container stores [B.Serialize()] as it is, without the pair of
    brackets the matching getter requires: for B with the two scalar keys
    x=1 and y=2 and any container A, after [A.Set("outer", B)] the stored
    value is [x:1,y:2] and [A.Get("outer", d)] returns the default [d], not
    a container with the content of B.  The same happens for every
    non-empty B whose keys and values have no opening bracket. *)
Theorem C1_nested_set_get_returns_default (A default_value : DataType) :
  let B : DataType := Set_string (Set_string ∅ "x" "1") "y" "2" in
  Set_package A "outer" B !! "outer" = Some "x:1,y:2"
  ∧ Get_package (Set_package A "outer" B) "outer" default_value
    = Returns default_value
  ∧ Get_package (Set_package A "outer" B) "outer" ∅ ≠ Returns B
  ∧ ∀ (B' : DataType) key,
      B' ≠ ∅ →
      (∀ k v, B' !! k = Some v → bracket_free k ∧ bracket_free v) →
      Set_package A key B' !! key = Some (Serialize B')
      ∧ Get_package (Set_package A key B') key default_value
        = Returns default_value.
Proof.
  intros B.
  assert (Set_package A "outer" B !! "outer" = Some "x:1,y:2") as Hstored.
  { unfold Set_package. by rewrite lookup_insert_eq. }
  assert (∀ d, Get_package (Set_package A "outer" B) "outer" d = Returns d) as Hget.
  { intros d. unfold Get_package. by rewrite Hstored. }
  split_and!; [done|apply Hget| |].
  - rewrite Hget. intros H.
    assert ((∅ : DataType) !! "x" = B !! "x") as Hx by congruence.
    by vm_compute in Hx.
  - intros B' key Hne Hall.
    assert (Set_package A key B' !! key = Some (Serialize B')) as Hkey.
    { unfold Set_package. by rewrite lookup_insert_eq. }
    split; [done|]. unfold Get_package.
    by rewrite Hkey, is_bracketed_Serialize.
Qed.

(** C2, as the code has it.  Decoding the serialized text of a container
    gives the container back when no key and no value contains an opening
    bracket and no value contains a [##N] token. *)
Theorem C2_decode_encode_plain (x : DataType)
  (Hplain : ∀ k v, x !! k = Some v →
                   bracket_free k ∧ bracket_free v ∧ placeholder_free v) :
  ParamPackage (Serialize x) = Returns x.
Proof. by apply ParamPackage_Serialize. Qed.

Lemma C2_decode_encode_plain_witness :
  ParamPackage (Serialize {[ "a" := "x:y,z$w"; "b" := "#1|]"; "c$" := "##" ]})
  = Returns {[ "a" := "x:y,z$w"; "b" := "#1|]"; "c$" := "##" ]}.
Proof.
  apply C2_decode_encode_plain.
  apply (bool_decide_unpack
           (map_Forall (fun k v => bracket_free k ∧ bracket_free v
                                    ∧ placeholder_free v) _)).
  vm_compute. exact I.
Defined.

(** C2, as stated, fails: a key with a bracketed region comes back as the
    placeholder that masked it, and a list value written by the list setter
    makes the constructor leave through [std::invalid_argument]. *)
Lemma C2_counterexample :
  ParamPackage (Serialize {[ "[a]" := "x" ]}) = Returns {[ "##0" := "x" ]}
  ∧ ParamPackage (Serialize (Set_strings ∅ "k" ["a"; "b"]))
    = Throws invalid_argument
  ∧ ¬ (∀ x : DataType, ParamPackage (Serialize x) = Returns x).
Proof.
  split_and!; [by vm_compute..|].
  intros H. specialize (H (Set_strings ∅ "k" ["a"; "b"])). by vm_compute in H.
Qed.

(** C3. Totality of the public interface fails on the code.  The
    constructor leaves through [std::invalid_argument] on a text with a
    [##N] token and on a text with a bracketed value, the list-of-containers
    getter does so on a stored value with a token, and the getters that
    test for brackets call [front()] on a stored empty string, whatever
    the key and the default. *)
Theorem C3_operations_do_not_return :
  ParamPackage "a:##0" = Throws invalid_argument
  ∧ ParamPackage "k:[a|b]" = Throws invalid_argument
  ∧ Get_packages {[ "k" := "[x:1,y:##5]" ]} "k" [] = Throws invalid_argument
  ∧ (∀ (data : DataType) key,
       data !! key = Some "" →
       (∀ d, Get_strings data key d = Undefined)
       ∧ (∀ d, Get_ints data key d = Undefined)
       ∧ (∀ d, Get_package data key d = Undefined)
       ∧ (∀ d, Get_packages data key d = Undefined))
  ∧ Get_strings {[ "k" := "" ]} "k" [] = Undefined.
Proof.
  split_and!; [by vm_compute..| |by vm_compute].
  intros data key Hkey.
  unfold Get_ints, Get_strings, Get_package, Get_packages.
  by rewrite Hkey.
Qed.

(** C4. [Serialize] escapes every value, bracketed or not: a container
    with one key is written as the escaped key, the separator and the
    escaped value whatever the value is.  The value that the
    list-of-containers setter stores for x=1,y=2 and w=4,z=3 is
    [[x:1,y:2|w:4,z:3]], and it is written with every [:] and [,] inside
    the brackets replaced by its escape. *)
Theorem C4_serialize_escapes_inside_brackets :
  let B1 : DataType := {[ "x" := "1"; "y" := "2" ]} in
  let B2 : DataType := {[ "w" := "4"; "z" := "3" ]} in
  (∀ k v, Serialize {[ k := v ]}
          = escape k +:+ str1 KEY_VALUE_SEPARATOR +:+ escape v)
  ∧ escape "[x:1,y:2|w:4,z:3]" = "[x$01$1y$02|w$04$1z$03]"
  ∧ Set_packages ∅ "k" [B1; B2] !! "k" = Some "[x:1,y:2|w:4,z:3]"
  ∧ Serialize (Set_packages ∅ "k" [B1; B2]) = "k:[x$01$1y$02|w$04$1z$03]".
Proof. split_and!; [apply Serialize_singleton|by vm_compute..]. Qed.

(** C5, as the code has it.  Scalar round trip with escaping: for a key
    and a value without opening bracket, the value without [##N] token,
    building a container with [Set(k, v)], serializing it, constructing a
    container from the text and reading [Get(k, "")] returns [v]; the
    separators and the escape character in [k] and [v] do not matter. *)
Theorem C5_scalar_round_trip (k v : string)
  (Hk : bracket_free k) (Hv : bracket_free v) (Hph : placeholder_free v) :
  ∃ decoded, ParamPackage (Serialize (Set_string ∅ k v)) = Returns decoded
             ∧ Get_string decoded k "" = v.
Proof.
  exists (Set_string ∅ k v). split.
  - apply ParamPackage_Serialize. intros k' v'. unfold Set_string.
    rewrite lookup_insert_Some, lookup_empty. by intros [[<- <-]|[_ ?]].
  - unfold Get_string, Set_string. by rewrite lookup_insert_eq.
Qed.

Lemma C5_scalar_round_trip_witness :
  ∃ decoded, ParamPackage (Serialize (Set_string ∅ "a" "x:y,z$w")) = Returns decoded
             ∧ Get_string decoded "a" "" = "x:y,z$w".
Proof. apply C5_scalar_round_trip; reflexivity. Defined.

(** C5, as stated, fails: a key with a bracketed region is stored under the
    placeholder that masked it, so the read under the key gives the default;
    and a value that is a [##N] token makes the constructor leave through
    [std::invalid_argument]. *)
Lemma C5_counterexample :
  ParamPackage (Serialize (Set_string ∅ "[a]" "x")) = Returns {[ "##0" := "x" ]}
  ∧ Get_string {[ "##0" := "x" ]} "[a]" "" = ""
  ∧ ParamPackage (Serialize (Set_string ∅ "k" "##0")) = Throws invalid_argument.
Proof. split_and!; by vm_compute. Qed.

(** C6, as the code has it.  For every B1 and B2, [Set(key, {B1, B2})]
    stores [[] B1.Serialize() [|] B2.Serialize() []]; and the
    list-of-containers getter returns B1 and B2 in that order when both are
    non-empty, their keys and values contain no opening bracket, no list
    separator and no [##N] token, and one of them at least has two keys or
    more. *)
Theorem C6_package_list_round_trip
  (data B1 B2 : DataType) (key : string) (default_value : list DataType) :
  Set_packages data key [B1; B2] !! key
  = Some ("[" +:+ (Serialize B1 +:+ "|" +:+ Serialize B2) +:+ "]")
  ∧ ((∀ B k v, B ∈ [B1; B2] → B !! k = Some v →
        (bracket_free k ∧ pipe_free k ∧ placeholder_free k)
        ∧ (bracket_free v ∧ pipe_free v ∧ placeholder_free v)) →
     B1 ≠ ∅ → B2 ≠ ∅ →
     2 ≤ size B1 ∨ 2 ≤ size B2 →
     Get_packages (Set_packages data key [B1; B2]) key default_value
     = Returns [B1; B2]).
Proof.
  assert (Set_packages data key [B1; B2] !! key
          = Some ("[" +:+ (Serialize B1 +:+ "|" +:+ Serialize B2) +:+ "]"))
    as Hstored.
  { unfold Set_packages. by rewrite lookup_insert_eq. }
  split; [done|]. intros Hplain Hne1 Hne2 Hsize.
  assert (∀ B, B ∈ [B1; B2] → B ≠ ∅) as Hne.
  { intros B [->|[->|[]%elem_of_nil]%elem_of_cons]%elem_of_cons; done. }
  assert (∀ B, B ∈ [B1; B2] →
               bracket_free (Serialize B) ∧ pipe_free (Serialize B)
               ∧ placeholder_free (Serialize B)
               ∧ ParamPackage (Serialize B) = Returns B) as Htext.
  { intros B HB. split_and!.
    - apply has_char_Serialize; [by apply Hne|done..|].
      intros k v Hkv. by destruct (Hplain B k v HB Hkv) as [(? & _) (? & _)].
    - apply has_char_Serialize; [by apply Hne|done..|].
      intros k v Hkv. by destruct (Hplain B k v HB Hkv) as [(_ & ? & _) (_ & ? & _)].
    - apply placeholder_free_Serialize; [by apply Hne|].
      intros k v Hkv. by destruct (Hplain B k v HB Hkv) as [(_ & _ & ?) (_ & _ & ?)].
    - apply ParamPackage_Serialize.
      intros k v Hkv. by destruct (Hplain B k v HB Hkv) as [(? & _) (? & _ & ?)]. }
  destruct (Htext B1) as (Hb1 & Hp1 & Hf1 & Hd1); [by left|].
  destruct (Htext B2) as (Hb2 & Hp2 & Hf2 & Hd2); [by right; left|].
  unfold Get_packages. rewrite Hstored.
  rewrite is_bracketed_wrap. cbn [mbind outcome_bind].
  rewrite strip_brackets_wrap. cbn [mbind outcome_bind].
  rewrite PlaceholderifyData_no_match.
  2:{ apply regex_search_LIST_MATCH_bracket_free. unfold bracket_free in *.
      rewrite !has_char_app, Hb1, Hb2. done. }
  cbn [mbind outcome_bind fst snd].
  destruct (find_char_Some (Serialize B1 +:+ "|" +:+ Serialize B2) PARAM_SEPARATOR)
    as [p ->].
  { rewrite !has_char_app.
    destruct Hsize as [H|H]; apply Serialize_has_param_separator in H;
      rewrite H; by rewrite ?orb_true_r. }
  change ("|" +:+ Serialize B2) with (String LIST_SEPARATOR (Serialize B2)).
  rewrite SplitString_app, SplitString_absent by done.
  cbn [transform]. rewrite !ReplacePlaceholders_no_match by done.
  cbn [mbind mret outcome_bind outcome_ret transform]. by rewrite Hd1, Hd2.
Qed.

Lemma C6_package_list_round_trip_witness :
  Get_packages
    (Set_packages ∅ "k" [ {[ "x" := "1"; "y" := "2" ]}; {[ "z" := "3" ]} ]) "k" []
  = Returns [ {[ "x" := "1"; "y" := "2" ]}; {[ "z" := "3" ]} ].
Proof.
  apply (proj2 (C6_package_list_round_trip
                  ∅ {[ "x" := "1"; "y" := "2" ]} {[ "z" := "3" ]} "k" [])).
  - intros B k v HB.
    assert (map_Forall (fun k v => (bracket_free k ∧ pipe_free k ∧ placeholder_free k)
                          ∧ (bracket_free v ∧ pipe_free v ∧ placeholder_free v)) B)
      as HF; [|by apply HF].
    apply elem_of_cons in HB as [->|[->|[]%elem_of_nil]%elem_of_cons];
      apply (bool_decide_unpack _); vm_compute; exact I.
  - apply (bool_decide_unpack _). vm_compute. exact I.
  - apply (bool_decide_unpack _). vm_compute. exact I.
  - left. vm_compute. lia.
Defined.

(** C6, as stated, fails: two distinct containers with one key each are
    stored as [[x:1|y:2]], which has no pair separator, and the getter
    returns the default. *)
Lemma C6_counterexample :
  let B1 : DataType := {[ "x" := "1" ]} in
  let B2 : DataType := {[ "y" := "2" ]} in
  B1 ≠ B2
  ∧ Set_packages ∅ "k" [B1; B2] !! "k" = Some "[x:1|y:2]"
  ∧ Get_packages (Set_packages ∅ "k" [B1; B2]) "k" [] = Returns []
  ∧ Get_packages (Set_packages ∅ "k" [B1; B2]) "k" [] ≠ Returns [B1; B2].
Proof.
  intros B1 B2. split_and!; [|by vm_compute..|by vm_compute].
  intros H. assert (B1 !! "x" = B2 !! "x") as Hx by congruence.
  by vm_compute in Hx.
Qed.

(** C7. The list-of-int getter is all or nothing.  It first decodes the
    stored value as a list of strings, with the empty list as default.
    When that decode returns the empty list, which it does for a stored
    value that fails the bracket test, the getter returns the supplied
    default; when one element does not parse, whatever its position, it
    returns the supplied default and nothing of the elements parsed before;
    otherwise it returns the parsed elements. *)
Theorem C7_get_ints_all_or_nothing
  (data : DataType) (key : string) (default_value : list Z)
  (vec0 : list string)
  (Hdecode : Get_strings data key [] = Returns vec0) :
  (vec0 = [] → Get_ints data key default_value = Returns default_value)
  ∧ (∀ second, data !! key = Some second →
               is_bracketed second = Returns false →
               vec0 = [] ∧ Get_ints data key default_value = Returns default_value)
  ∧ (∀ str e, str ∈ vec0 → stoi str = Throws e →
              Get_ints data key default_value = Returns default_value)
  ∧ (∀ ints, vec0 ≠ [] → Forall2 (fun str n => stoi str = Returns n) vec0 ints →
             Get_ints data key default_value = Returns ints).
Proof.
  assert (vec0 = [] → Get_ints data key default_value = Returns default_value)
    as Hempty.
  { intros ->. unfold Get_ints. by rewrite Hdecode. }
  split_and!; [done| | |].
  - intros second Hsecond Hbr. unfold Get_strings in Hdecode.
    rewrite Hsecond, Hbr in Hdecode. injection Hdecode as <-. auto.
  - intros str e Hin Hstr. unfold Get_ints. rewrite Hdecode.
    cbn [mbind outcome_bind]. destruct vec0 as [|x rest]; [done|].
    by eapply Get_ints_loop_failure.
  - intros ints Hne Hall. unfold Get_ints. rewrite Hdecode.
    cbn [mbind outcome_bind]. destruct vec0 as [|x rest]; [done|].
    by rewrite (Get_ints_loop_success _ _ _ ints).
Qed.

Lemma C7_get_ints_all_or_nothing_witness :
  Get_ints {[ "k" := "[1|2|x]" ]} "k" [7%Z] = Returns [7%Z].
Proof.
  assert (Get_strings {[ "k" := "[1|2|x]" ]} "k" [] = Returns ["1"; "2"; "x"])
    as Hdecode by (vm_compute; reflexivity).
  destruct (C7_get_ints_all_or_nothing {[ "k" := "[1|2|x]" ]} "k" [7%Z]
              ["1"; "2"; "x"] Hdecode) as (_ & _ & Hfail & _).
  apply (Hfail "x" invalid_argument); [|reflexivity].
  apply list_elem_of_further, list_elem_of_further, list_elem_of_here.
Defined.

(** C8. Malformed-pair tolerance of the constructor.  A pair that does not
    split into exactly two parts on the key/value separator leaves the
    container as it was and the loop goes on with the pairs that follow:
    among pairs without opening bracket, the constructor gives the same
    result with and without it.  From [a:1,bad,c:3] it builds exactly a=1
    and c=3. *)
Theorem C8_malformed_pair_skipped
  (before after : list string) (bad : string) (data : DataType)
  (Hbad : length (SplitString bad KEY_VALUE_SEPARATOR) ≠ 2) :
  foldl parse_pair data (before ++ bad :: after)
  = foldl parse_pair data (before ++ after)
  ∧ (Forall (fun pair => has_char PARAM_SEPARATOR pair = false ∧ bracket_free pair)
            (before ++ bad :: after) →
     before ++ after ≠ [] →
     ParamPackage (join (str1 PARAM_SEPARATOR) (before ++ bad :: after))
     = ParamPackage (join (str1 PARAM_SEPARATOR) (before ++ after)))
  ∧ ParamPackage "a:1,bad,c:3" = Returns {[ "a" := "1"; "c" := "3" ]}.
Proof.
  split_and!; [by apply foldl_parse_pair_skip| |by vm_compute].
  intros Hall Hne.
  rewrite !ParamPackage_bracket_free; try done.
  - by rewrite foldl_parse_pair_skip.
  - apply Forall_app in Hall as [H1 [_ H2]%Forall_cons]. by apply Forall_app.
  - by destruct before.
Qed.

Lemma C8_malformed_pair_skipped_witness :
  foldl parse_pair ∅ (["a:1"] ++ "bad" :: ["c:3"])
  = foldl parse_pair ∅ (["a:1"] ++ ["c:3"]).
Proof.
  apply (C8_malformed_pair_skipped ["a:1"] ["c:3"] "bad" ∅). vm_compute. lia.
Defined.

(** C9. The empty-container sentinel: the empty container serializes to
    the literal [[empty]], and the container constructed from that literal
    is the empty one, in which [Has(k)] is false for every key. *)
Theorem C9_empty_sentinel :
  Serialize ∅ = "[empty]"
  ∧ ∃ decoded, ParamPackage "[empty]" = Returns decoded
               ∧ decoded = ∅
               ∧ ∀ k, Has decoded k = false.
Proof.
  split; [done|]. exists ∅. split_and!; [done..|].
  intros k. unfold Has. by rewrite lookup_empty.
Qed.

(** C10. Placeholder masking is not undone by the code.  On every string
    with a bracketed region, whether or not it has a [##N] token of its
    own, [PlaceholderifyData] returns a masked string and a table on which
    [ReplacePlaceholders] does not return the string: it leaves through
    [std::invalid_argument], as it does on every string in which its search
    finds a token, with any table.  The string [[a]] is masked as [##0],
    with a table of one entry. *)
Theorem C10_masking_not_undone :
  (∀ s lookup, regex_search_LIST_MATCH s ≠ None →
     ∃ s' lookup', PlaceholderifyData s lookup = Returns (s', lookup')
                   ∧ ReplacePlaceholders s' lookup' = Throws invalid_argument)
  ∧ (∀ str lookup, ¬ placeholder_free str →
                   ReplacePlaceholders str lookup = Throws invalid_argument)
  ∧ placeholder_free "[a]"
  ∧ ∃ lookup', PlaceholderifyData "[a]" [] = Returns ("##0", lookup')
               ∧ length lookup' = 1
               ∧ ReplacePlaceholders "##0" lookup' = Throws invalid_argument.
Proof.
  split_and!; [|apply ReplacePlaceholders_match|by vm_compute|].
  - apply PlaceholderifyData_then_ReplacePlaceholders.
  - exists [Indeterminate]. split_and!; by vm_compute.
Qed.

(** * Further properties of the code *)

(** ** Decimal text of integers *)

Section Decimal.

Implicit Types (u : Decimal.uint) (n : nat) (z : Z) (s : string).

(** A string of decimal digits only. *)
Lemma take_digits_string_of_uint u :
  take_digits (NilEmpty.string_of_uint u) = NilEmpty.string_of_uint u.
Proof. induction u; simpl; [done|..]; by rewrite IHu. Qed.

Lemma digits_value_string_of_uint u (acc : nat) :
  digits_value (Z.of_nat acc) (NilEmpty.string_of_uint u)
  = Z.of_nat (Nat.of_uint_acc u acc).
Proof.
  revert acc. induction u; intros acc; cbn [NilEmpty.string_of_uint digits_value
    Nat.of_uint_acc]; [done|..];
    rewrite <-IHu; f_equal; rewrite Nat.tail_mul_spec;
    match goal with
    | |- context [digit_value ?c] =>
        let v := eval vm_compute in (digit_value c) in
        change (digit_value c) with v
    end; lia.
Qed.

Lemma digits_value_to_string n : digits_value 0 (to_string n) = Z.of_nat n.
Proof.
  unfold to_string. rewrite (digits_value_string_of_uint _ 0).
  f_equal. apply Unsigned.of_to.
Qed.

Lemma to_string_cons n : ∃ c r, to_string n = String c r ∧ isdigit c = true.
Proof.
  pose proof (to_string_starts_digit n "") as H. rewrite app_nil_r in H.
  destruct (to_string n) as [|c r]; [done|]. eauto.
Qed.

Lemma stoi_to_string n :
  (Z.of_nat n <= INT_MAX)%Z → stoi (to_string n) = Returns (Z.of_nat n).
Proof.
  intros Hmax. pose proof (digits_value_to_string n) as Hval.
  pose proof (take_digits_string_of_uint (Nat.to_uint n)) as Hdig.
  fold (to_string n) in Hdig.
  destruct (to_string_cons n) as (c & r & E & Hc). rewrite E in *.
  unfold stoi. cbn [skip_spaces].
  assert (isspace c = false) as ->.
  { unfold isdigit, isspace in *. destruct (nat_of_ascii c =? 32) eqn:E32.
    - apply Nat.eqb_eq in E32. rewrite E32 in Hc. done.
    - simpl. apply andb_true_iff in Hc as [H1%Nat.leb_le H2].
      apply andb_false_iff. right. apply Nat.leb_gt. lia. }
  destruct (decide (c = "-"%char)) as [->|_]; [done|].
  destruct (decide (c = "+"%char)) as [->|_]; [done|].
  rewrite Hdig, Hval.
  assert ((INT_MIN <=? 1 * Z.of_nat n)%Z && (1 * Z.of_nat n <=? INT_MAX)%Z = true)
    as ->; [|f_equal; lia].
  apply andb_true_iff. split; apply Z.leb_le; unfold INT_MIN in *; lia.
Qed.

Lemma stoi_minus_to_string n :
  (- Z.of_nat n >= INT_MIN)%Z →
  stoi ("-" +:+ to_string n) = Returns (- Z.of_nat n)%Z.
Proof.
  intros Hmin. pose proof (digits_value_to_string n) as Hval.
  pose proof (take_digits_string_of_uint (Nat.to_uint n)) as Hdig.
  fold (to_string n) in Hdig.
  destruct (to_string_cons n) as (c & r & E & Hc). rewrite E in *.
  unfold stoi. simpl skip_spaces. cbn iota beta.
  destruct (decide ("-"%char = "-"%char)); [|done].
  rewrite Hdig, Hval.
  assert ((INT_MIN <=? -1 * Z.of_nat n)%Z && (-1 * Z.of_nat n <=? INT_MAX)%Z = true)
    as ->; [|f_equal; lia].
  apply andb_true_iff. split; apply Z.leb_le; unfold INT_MAX in *; lia.
Qed.

(** Reading the text written for an [int] gives the [int] back. *)
Lemma stoi_to_string_int z :
  (INT_MIN <= z <= INT_MAX)%Z → stoi (to_string_int z) = Returns z.
Proof.
  intros [Hmin Hmax]. unfold to_string_int.
  destruct (z <? 0)%Z eqn:E.
  - apply Z.ltb_lt in E. rewrite stoi_minus_to_string; [f_equal|]; lia.
  - apply Z.ltb_ge in E. rewrite stoi_to_string; [f_equal|]; lia.
Qed.

Lemma has_char_to_string_int c z :
  isdigit c = false → c ≠ "-"%char → has_char c (to_string_int z) = false.
Proof.
  intros Hc Hm. unfold to_string_int, to_string.
  destruct (z <? 0)%Z; simpl; rewrite ?has_char_string_of_uint by done;
    [by destruct (decide ("-"%char = c))|done].
Qed.

End Decimal.

(** ** Bracketed values *)

Section Lists.

Implicit Types (data : DataType) (key inner : string) (items : list string).

Lemma Get_strings_bracketed data key inner default_value :
  data !! key = Some ("[" +:+ inner +:+ "]") →
  Get_strings data key default_value
  = Returns (SplitString inner LIST_SEPARATOR).
Proof.
  intros Hkey. unfold Get_strings.
  by rewrite Hkey, is_bracketed_wrap, strip_brackets_wrap.
Qed.

Lemma Get_strings_join data key items default_value :
  items ≠ [] → Forall pipe_free items →
  data !! key = Some ("[" +:+ join (str1 LIST_SEPARATOR) items +:+ "]") →
  Get_strings data key default_value = Returns items.
Proof.
  intros Hne Hall Hkey. rewrite (Get_strings_bracketed _ _ _ _ Hkey).
  by rewrite SplitString_join.
Qed.

Lemma transform_Forall2 {A B : Type} (f : A → outcome B) vec result :
  Forall2 (fun x y => f x = Returns y) vec result →
  transform f vec = Returns result.
Proof.
  induction 1 as [|x y vec result Hx _ IH]; cbn [transform]; [done|].
  by rewrite Hx, IH.
Qed.

Lemma has_char_Serialize_key_value_separator data :
  data ≠ ∅ → has_char KEY_VALUE_SEPARATOR (Serialize data) = true.
Proof.
  intros Hne. rewrite Serialize_nonempty by done.
  destruct (entries data) as [|p l] eqn:E; [by apply entries_nil in E|].
  cbn [fmap list_fmap]. unfold encode_pair at 1.
  destruct (encode_pair <$> l); cbn [join]; rewrite !has_char_app; simpl;
    by rewrite orb_true_r.
Qed.

(** Left folds of insertions: the last pair of a key is the one kept. *)
Lemma foldl_insert_reverse (l : list (string * string)) data :
  foldl (fun d pair => <[pair.1 := pair.2]> d) data l
  = (list_to_map (reverse l) : DataType) ∪ data.
Proof.
  revert data. induction l as [|[k v] l IH]; intros data; simpl.
  - by rewrite (left_id_L ∅ (∪)).
  - rewrite IH, reverse_cons, list_to_map_app. simpl.
    rewrite <-(assoc_L (∪)). f_equal.
    by rewrite <-insert_union_l, (left_id_L ∅ (∪)).
Qed.

End Lists.

(** ** Escaping and the serialized text *)

(** X1. The three replacements of the constructor undo the three
    replacements of [Serialize] on every string, and the escaped text has
    neither the pair separator nor the key/value separator left in it. *)
Theorem X1_escape_round_trip (part : string) :
  unescape (escape part) = part
  ∧ has_char PARAM_SEPARATOR (escape part) = false
  ∧ has_char KEY_VALUE_SEPARATOR (escape part) = false.
Proof.
  split_and!; [apply unescape_escape|apply escape_no_separator..]; auto.
Qed.

(** X2. [Serialize] returns the sentinel [[empty]] for the empty container
    and for no other, and it never returns the empty string: the text of a
    non-empty container has a key/value separator. *)
Theorem X2_sentinel_only_for_empty (data : DataType) :
  (Serialize data = EMPTY_PLACEHOLDER ↔ data = ∅)
  ∧ Serialize data ≠ ""
  ∧ (data ≠ ∅ → has_char KEY_VALUE_SEPARATOR (Serialize data) = true).
Proof.
  assert (data ≠ ∅ → has_char KEY_VALUE_SEPARATOR (Serialize data) = true) as Hsep
    by apply has_char_Serialize_key_value_separator.
  split_and!; [split| |done].
  - intros E. destruct (decide (data = ∅)) as [|Hne]; [done|].
    apply Hsep in Hne. by rewrite E in Hne.
  - by intros ->.
  - destruct (decide (data = ∅)) as [->|Hne]; [done|].
    apply Hsep in Hne. intros E. by rewrite E in Hne.
Qed.

(** X3. Two containers without opening bracket in keys and values and
    without [##N] token in values that serialize to the same text are the
    same container. *)
Theorem X3_serialize_injective (x y : DataType)
  (Hx : ∀ k v, x !! k = Some v →
               bracket_free k ∧ bracket_free v ∧ placeholder_free v)
  (Hy : ∀ k v, y !! k = Some v →
               bracket_free k ∧ bracket_free v ∧ placeholder_free v)
  (Htext : Serialize x = Serialize y) :
  x = y.
Proof.
  apply ParamPackage_Serialize in Hx, Hy. rewrite Htext in Hx. congruence.
Qed.

Lemma X3_serialize_injective_witness :
  Set_string (Set_string ∅ "a" "1") "b" "2"
  = Set_string (Set_string ∅ "b" "2") "a" "1".
Proof.
  apply X3_serialize_injective.
  - apply (bool_decide_unpack
             (map_Forall (fun k v => bracket_free k ∧ bracket_free v
                                      ∧ placeholder_free v) _)).
    vm_compute. exact I.
  - apply (bool_decide_unpack
             (map_Forall (fun k v => bracket_free k ∧ bracket_free v
                                      ∧ placeholder_free v) _)).
    vm_compute. exact I.
  - vm_compute. reflexivity.
Defined.

(** ** The two constructors on a repeated key *)

Lemma ParamPackage_encoded_pairs (l : list (string * string)) :
  l ≠ [] →
  Forall (fun pair => bracket_free pair.1 ∧ bracket_free pair.2
                      ∧ placeholder_free pair.2) l →
  ParamPackage (join (str1 PARAM_SEPARATOR) (encode_pair <$> l))
  = Returns (list_to_map (reverse l)).
Proof.
  intros Hne Hall. rewrite ParamPackage_bracket_free.
  - rewrite foldl_parse_pair_encode, foldl_insert_reverse, (right_id_L ∅ (∪)).
    apply restore_values_plain. intros k v Hkv.
    apply elem_of_list_to_map_2 in Hkv. rewrite elem_of_reverse in Hkv.
    rewrite Forall_forall in Hall. by destruct (Hall _ Hkv) as (_ & _ & ?).
  - by intros ?%fmap_nil_inv.
  - apply Forall_fmap. eapply Forall_impl; [exact Hall|].
    intros pair (? & ? & _). split; [apply encode_pair_no_param_separator|].
    by apply has_char_encode_pair.
Qed.

(** X4. The constructor from text keeps, for a key written in several
    pairs, the value of the last one: on the pairs [before], [(k, v)],
    [after] written with escapes and joined by the pair separator, with [k]
    not among the keys of [after] (no opening bracket in keys and values, no
    [##N] token in values), it returns a container in which [k] has the
    value [v]. *)
Theorem X4_constructor_last_pair_wins
  (before after : list (string * string)) (k v default_value : string)
  (Hplain : Forall (fun pair => bracket_free pair.1 ∧ bracket_free pair.2
                                ∧ placeholder_free pair.2)
                   (before ++ (k, v) :: after))
  (Hlast : k ∉ after.*1) :
  ∃ data,
    ParamPackage (join (str1 PARAM_SEPARATOR)
                       (encode_pair <$> before ++ (k, v) :: after))
    = Returns data
    ∧ Get_string data k default_value = v.
Proof.
  eexists. split.
  - apply ParamPackage_encoded_pairs; [by destruct before|done].
  - unfold Get_string.
    rewrite reverse_app, reverse_cons, <-(assoc_L (++)), list_to_map_app.
    rewrite lookup_union_r.
    + simpl. by rewrite lookup_insert_eq.
    + apply not_elem_of_list_to_map_1. rewrite fmap_reverse.
      by rewrite elem_of_reverse.
Qed.

Lemma X4_constructor_last_pair_wins_witness :
  ∃ data, ParamPackage "a:1,b:2,a:3" = Returns data
          ∧ Get_string data "a" "" = "3".
Proof.
  apply (X4_constructor_last_pair_wins [("a", "1"); ("b", "2")] [] "a" "3" "").
  - repeat constructor.
  - apply not_elem_of_nil.
Defined.

Lemma ParamPackage_list_union (l : list (string * string)) (data : DataType) :
  foldl (fun data pair =>
           match data !! pair.1 with
           | Some _ => data
           | None => <[pair.1 := pair.2]> data
           end) data l
  = data ∪ list_to_map l.
Proof.
  revert data. induction l as [|[k v] l IH]; intros data; simpl.
  - by rewrite (right_id_L ∅ (∪)).
  - rewrite IH. destruct (data !! k) as [w|] eqn:E.
    + apply map_eq. intros i. rewrite !lookup_union.
      destruct (decide (i = k)) as [->|Hne].
      * rewrite lookup_insert_eq, E. by destruct (list_to_map l !! k).
      * by rewrite lookup_insert_ne.
    + rewrite insert_union_singleton_r by done.
      by rewrite <-(assoc_L (∪)), <-insert_union_singleton_l.
Qed.

(** X5. The constructor from a list of pairs keeps, for a key listed
    several times, the value of the first pair: with [k] not among the keys
    of [before], the container built from [before], [(k, v)], [after] has
    [v] under [k]. *)
Theorem X5_initializer_list_first_pair_wins
  (before after : list (string * string)) (k v default_value : string)
  (Hfirst : k ∉ before.*1) :
  Get_string (ParamPackage_list (before ++ (k, v) :: after)) k default_value = v
  ∧ Has (ParamPackage_list (before ++ (k, v) :: after)) k = true.
Proof.
  assert (ParamPackage_list (before ++ (k, v) :: after) !! k = Some v) as Hk.
  { unfold ParamPackage_list.
    rewrite ParamPackage_list_union, (left_id_L ∅ (∪)), list_to_map_app.
    rewrite lookup_union_r by by apply not_elem_of_list_to_map_1.
    simpl. by rewrite lookup_insert_eq. }
  unfold Get_string, Has. rewrite Hk. split; [done|].
  by apply bool_decide_eq_true_2.
Qed.

Lemma X5_initializer_list_first_pair_wins_witness :
  Get_string (ParamPackage_list [("b", "2"); ("a", "1"); ("a", "3")]) "a" "" = "1".
Proof.
  apply (X5_initializer_list_first_pair_wins [("b", "2")] [("a", "3")] "a" "1" "").
  apply (bool_decide_unpack _). vm_compute. exact I.
Defined.

(** ** Typed writes read back *)

(** X6. An [int] written with [Set(key, int)] is read back by
    [Get(key, int)], whatever was stored under the key before and whatever
    the default. *)
Theorem X6_int_round_trip (data : DataType) (key : string) (value default_value : Z)
  (Hint : (INT_MIN <= value <= INT_MAX)%Z) :
  Get_int (Set_int data key value) key default_value = Returns value.
Proof.
  unfold Get_int, Set_int. rewrite lookup_insert_eq.
  by rewrite stoi_to_string_int.
Qed.

Lemma X6_int_round_trip_witness :
  Get_int (Set_int {[ "k" := "old" ]} "k" (-42)) "k" 0 = Returns (-42)%Z.
Proof. apply X6_int_round_trip. vm_compute. by split. Defined.

(** X7. A non-empty list of [int] written with [Set(key, vector<int>)] is
    read back by [Get(key, vector<int>)], element by element in order; the
    empty list is read back as the supplied default. *)
Theorem X7_int_list_round_trip
  (data : DataType) (key : string) (value default_value : list Z)
  (Hint : Forall (fun n => (INT_MIN <= n <= INT_MAX)%Z) value) :
  Get_ints (Set_ints data key value) key default_value
  = Returns (match value with [] => default_value | _ => value end).
Proof.
  destruct value as [|n value].
  { unfold Get_ints, Set_ints, Get_strings. rewrite lookup_insert_eq.
    by vm_compute. }
  set (ints := n :: value) in *.
  assert (Get_strings (Set_ints data key ints) key []
          = Returns (to_string_int <$> ints)) as Hdecode.
  { apply Get_strings_join.
    - done.
    - apply Forall_fmap, Forall_forall. intros z _.
      by apply has_char_to_string_int.
    - unfold Set_ints. by rewrite lookup_insert_eq. }
  unfold Get_ints. rewrite Hdecode. cbn [mbind outcome_bind].
  change (to_string_int <$> ints)
    with (to_string_int n :: (to_string_int <$> value)) at 1.
  cbv iota beta.
  change (to_string_int n :: (to_string_int <$> value))
    with (to_string_int <$> ints).
  rewrite (Get_ints_loop_success _ _ _ ints); [done|].
  apply Forall2_fmap_l, Forall_Forall2_diag.
  eapply Forall_impl; [exact Hint|]. intros z Hz. by apply stoi_to_string_int.
Qed.

Lemma X7_int_list_round_trip_witness :
  Get_ints (Set_ints ∅ "k" [3; -1; 0]%Z) "k" [] = Returns [3; -1; 0]%Z.
Proof.
  apply (X7_int_list_round_trip ∅ "k" [3; -1; 0]%Z []).
  repeat constructor; by vm_compute.
Defined.

(** X8. A non-empty list of non-empty strings without list separator
    written with [Set(key, vector<string>)] is read back by
    [Get(key, vector<string>)], element by element in order; brackets, pair
    separators and escapes inside the elements do not matter. *)
Theorem X8_string_list_round_trip
  (data : DataType) (key : string) (value default_value : list string)
  (Hne : value ≠ [])
  (Hitems : Forall (fun item => item ≠ "" ∧ pipe_free item) value) :
  Get_strings (Set_strings data key value) key default_value = Returns value.
Proof.
  apply Get_strings_join; [done| |].
  - eapply Forall_impl; [exact Hitems|]. by intros ? [].
  - unfold Set_strings. by rewrite lookup_insert_eq.
Qed.

Lemma X8_string_list_round_trip_witness :
  Get_strings (Set_strings ∅ "k" ["a"; "[b,c]"; "$:"]) "k" []
  = Returns ["a"; "[b,c]"; "$:"].
Proof.
  apply X8_string_list_round_trip; [done|].
  repeat constructor; done.
Defined.

(** ** Keys: writing, erasing, missing *)

(** X9. [Set] then [Get] on the same key gives the value written, on
    another key what was there before; a second [Set] on a key replaces
    the first; [Has] is true after [Set] and false after [Erase], which
    leaves the other keys alone; after [Clear] the container serializes to
    the sentinel. *)
Theorem X9_set_erase_has (data : DataType) (k k' v v' default_value : string) :
  Get_string (Set_string data k v) k default_value = v
  ∧ (k ≠ k' →
     Get_string (Set_string data k v) k' default_value
     = Get_string data k' default_value)
  ∧ Set_string (Set_string data k v) k v' = Set_string data k v'
  ∧ Has (Set_string data k v) k = true
  ∧ Has (Erase data k) k = false
  ∧ (k ≠ k' →
     Get_string (Erase data k) k' default_value
     = Get_string data k' default_value
     ∧ Has (Erase data k) k' = Has data k')
  ∧ Serialize (Clear data) = EMPTY_PLACEHOLDER.
Proof.
  unfold Get_string, Set_string, Has, Erase, Clear. split_and!.
  - by rewrite lookup_insert_eq.
  - intros Hne. by rewrite lookup_insert_ne.
  - apply insert_insert_eq.
  - rewrite lookup_insert_eq. by apply bool_decide_eq_true_2.
  - rewrite lookup_delete_eq. apply bool_decide_eq_false_2. by intros [].
  - intros Hne. by rewrite lookup_delete_ne.
  - done.
Qed.

(** X10. On a key that is not in the container, and so on a key that was
    just erased, every getter returns the default it was given: none of
    them looks at a stored value, none throws. *)
Theorem X10_missing_key_gives_default (data : DataType) (key : string)
  (Hmissing : Has data key = false) :
  (∀ d, Get_string data key d = d)
  ∧ (∀ d, Get_strings data key d = Returns d)
  ∧ (∀ d, Get_int data key d = Returns d)
  ∧ (∀ d, Get_ints data key d = Returns d)
  ∧ (∀ d, Get_package data key d = Returns d)
  ∧ (∀ d, Get_packages data key d = Returns d).
Proof.
  unfold Has in Hmissing. apply bool_decide_eq_false in Hmissing.
  assert (data !! key = None) as Hkey.
  { destruct (data !! key) eqn:E; [|done]. destruct Hmissing. eauto. }
  unfold Get_string, Get_strings, Get_int, Get_ints, Get_package,
    Get_packages, Get_strings.
  rewrite Hkey. by split_and!.
Qed.

Lemma X10_missing_key_gives_default_witness :
  Get_ints (Erase (Set_int ∅ "k" 1) "k") "k" [7%Z] = Returns [7%Z].
Proof.
  apply (X10_missing_key_gives_default (Erase (Set_int ∅ "k" 1) "k") "k").
  vm_compute. reflexivity.
Defined.

Lemma back_returns (s : string) : s ≠ "" → ∃ c, back s = Returns c.
Proof.
  induction s as [|a s IH]; [done|]. intros _. simpl.
  destruct s as [|b s]; [eauto|]. by apply IH.
Qed.

Lemma is_bracketed_returns (second : string) :
  second ≠ "" → ∃ b, is_bracketed second = Returns b.
Proof.
  intros Hne. unfold is_bracketed.
  destruct (back_returns second Hne) as [c Hc].
  destruct second as [|a s]; [done|]. cbn [front mbind outcome_bind].
  destruct (decide (a = "["%char)); [|eauto]. rewrite Hc. eauto.
Qed.

Lemma strip_brackets_returns (second : string) :
  is_bracketed second = Returns true → ∃ val, strip_brackets second = Returns val.
Proof.
  intros H%is_bracketed_length. unfold strip_brackets, substr.
  assert ((String.length second <? 1) = false) as -> by (apply Nat.ltb_ge; lia).
  eauto.
Qed.

Lemma Get_ints_loop_returns default_value vec vec0 :
  ∃ result, Get_ints_loop default_value vec vec0 = Returns result.
Proof.
  revert vec. induction vec0 as [|str rest IH]; intros vec;
    cbn [Get_ints_loop]; [eauto|].
  destruct (stoi_total str) as [[n ->]|[e ->]]; [apply IH|eauto].
Qed.

(** X11. The getter for [int] returns on every container, key and
    default: a stored value that does not parse gives the default.  The
    getters for lists of strings and of [int] return whenever the stored
    value is not the empty string: the [substr] that strips the brackets is
    never out of range and a failed parse is caught. *)
Theorem X11_getters_return (data : DataType) (key : string) :
  (∀ d, ∃ n, Get_int data key d = Returns n)
  ∧ ((∀ second, data !! key = Some second → second ≠ "") →
     (∀ d, ∃ items, Get_strings data key d = Returns items)
     ∧ (∀ d, ∃ ints, Get_ints data key d = Returns ints)).
Proof.
  split.
  - intros d. unfold Get_int. destruct (data !! key) as [second|]; [|eauto].
    destruct (stoi_total second) as [[n ->]|[e ->]]; simpl; eauto.
  - intros Hne.
    assert (∀ d, ∃ items, Get_strings data key d = Returns items) as Hstrings.
    { intros d. unfold Get_strings.
      destruct (data !! key) as [second|] eqn:E; [|eauto].
      destruct (is_bracketed_returns second) as [b Hb]; [by apply Hne|].
      rewrite Hb. cbn [mbind outcome_bind]. destruct b; [|eauto].
      destruct (strip_brackets_returns _ Hb) as [val ->]. eauto. }
    split; [done|]. intros d. unfold Get_ints.
    destruct (Hstrings []) as [items ->]. cbn [mbind outcome_bind].
    destruct items; [eauto|]. apply Get_ints_loop_returns.
Qed.

(** ** Nested containers and lists of containers *)

Lemma has_char_join_elem c sep (ps : list string) p :
  p ∈ ps → has_char c p = true → has_char c (join sep ps) = true.
Proof.
  intros Hin Hp. induction Hin as [p ps|p q ps Hin IH].
  - destruct ps; cbn [join]; [done|]. by rewrite has_char_app, Hp.
  - destruct ps as [|r ps]; [by apply elem_of_nil in Hin|].
    change (join sep (q :: r :: ps)) with (q +:+ sep +:+ join sep (r :: ps)).
    by rewrite !has_char_app, IH, !orb_true_r.
Qed.

(** X12. A list of containers written with [Set(key, vector<ParamPackage>)]
    is read back by [Get(key, vector<ParamPackage>)], container by container
    in order, whatever its length, when it is not empty, no container in it
    is empty, one container at least has two keys or more, and the keys and
    values contain no opening bracket, no list separator and no [##N]
    token. *)
Theorem X12_package_list_round_trip
  (data : DataType) (key : string) (value default_value : list DataType)
  (Hne : value ≠ [])
  (Hplain : Forall (fun B : DataType =>
              B ≠ ∅ ∧
              ∀ k v, B !! k = Some v →
                (bracket_free k ∧ pipe_free k ∧ placeholder_free k)
                ∧ (bracket_free v ∧ pipe_free v ∧ placeholder_free v)) value)
  (Hsize : Exists (fun B : DataType => 2 ≤ size B) value) :
  Get_packages (Set_packages data key value) key default_value = Returns value.
Proof.
  assert (Forall (fun B : DataType =>
            bracket_free (Serialize B) ∧ pipe_free (Serialize B)
            ∧ placeholder_free (Serialize B)
            ∧ ParamPackage (Serialize B) = Returns B) value) as Htext.
  { eapply Forall_impl; [exact Hplain|]. intros B [HB Hkv]. split_and!.
    - apply has_char_Serialize; [done..|].
      intros k v H. by destruct (Hkv k v H) as [(? & _) (? & _)].
    - apply has_char_Serialize; [done..|].
      intros k v H. by destruct (Hkv k v H) as [(_ & ? & _) (_ & ? & _)].
    - apply placeholder_free_Serialize; [done|].
      intros k v H. by destruct (Hkv k v H) as [(_ & _ & ?) (_ & _ & ?)].
    - apply ParamPackage_Serialize.
      intros k v H. by destruct (Hkv k v H) as [(? & _) (? & _ & ?)]. }
  set (texts := Serialize <$> value).
  assert (bracket_free (join (str1 LIST_SEPARATOR) texts)) as Hfree.
  { apply has_char_join; [done|]. apply Forall_fmap.
    eapply Forall_impl; [exact Htext|]. by intros B (? & _). }
  unfold Get_packages, Set_packages. rewrite lookup_insert_eq. fold texts.
  rewrite is_bracketed_wrap. cbn [mbind outcome_bind].
  rewrite strip_brackets_wrap. cbn [mbind outcome_bind].
  rewrite PlaceholderifyData_no_match
    by by apply regex_search_LIST_MATCH_bracket_free.
  cbn [mbind outcome_bind fst snd].
  destruct (find_char_Some (join (str1 LIST_SEPARATOR) texts) PARAM_SEPARATOR)
    as [p ->].
  { apply Exists_exists in Hsize as (B & HB & Hsize).
    apply (has_char_join_elem _ _ _ (Serialize B)).
    - unfold texts. apply list_elem_of_fmap. eauto.
    - by apply Serialize_has_param_separator. }
  rewrite SplitString_join.
  - rewrite (transform_Forall2 _ texts texts).
    + cbn [mbind outcome_bind]. apply transform_Forall2.
      apply Forall2_fmap_l, Forall_Forall2_diag.
      eapply Forall_impl; [exact Htext|]. by intros B (_ & _ & _ & ?).
    + apply Forall_Forall2_diag, Forall_fmap.
      eapply Forall_impl; [exact Htext|]. intros B (_ & _ & ? & _).
      by apply ReplacePlaceholders_no_match.
  - by intros ?%fmap_nil_inv.
  - apply Forall_fmap. eapply Forall_impl; [exact Htext|]. by intros B (_ & ? & _).
Qed.

Lemma X12_package_list_round_trip_witness :
  Get_packages
    (Set_packages ∅ "k"
       [ {[ "x" := "1" ]}; {[ "y" := "2"; "z" := "3" ]}; {[ "w" := "4" ]} ])
    "k" []
  = Returns [ {[ "x" := "1" ]}; {[ "y" := "2"; "z" := "3" ]}; {[ "w" := "4" ]} ].
Proof.
  apply X12_package_list_round_trip.
  - done.
  - repeat (apply Forall_cons; split; [split|]); try apply Forall_nil;
      try (apply (bool_decide_unpack _); vm_compute; exact I);
      apply (bool_decide_unpack
               (map_Forall (fun k v =>
                  (bracket_free k ∧ pipe_free k ∧ placeholder_free k)
                  ∧ (bracket_free v ∧ pipe_free v ∧ placeholder_free v)) _));
      vm_compute; exact I.
  - apply Exists_cons_tl, Exists_cons_hd. vm_compute. lia.
Defined.

(** X13. A list holding one container, written with
    [Set(key, vector<ParamPackage>)], is read by [Get(key, ParamPackage)] as
    that container, when the container has two keys or more and its keys
    and values contain no opening bracket and no list separator, its values
    no [##N] token. *)
Theorem X13_single_package_read_as_nested
  (data B default_value : DataType) (key : string)
  (Hplain : ∀ k v, B !! k = Some v →
              (bracket_free k ∧ pipe_free k)
              ∧ (bracket_free v ∧ pipe_free v ∧ placeholder_free v))
  (Hsize : 2 ≤ size B) :
  Get_package (Set_packages data key [B]) key default_value = Returns B.
Proof.
  assert (B ≠ ∅) as Hne.
  { intros ->. rewrite map_size_empty in Hsize. lia. }
  assert (bracket_free (Serialize B)) as Hfree.
  { apply has_char_Serialize; [done..|].
    intros k v H. by destruct (Hplain k v H) as [(? & _) (? & _)]. }
  assert (pipe_free (Serialize B)) as Hpipe.
  { apply has_char_Serialize; [done..|].
    intros k v H. by destruct (Hplain k v H) as [(_ & ?) (_ & ? & _)]. }
  unfold Get_package, Set_packages. rewrite lookup_insert_eq.
  cbn [fmap list_fmap join].
  rewrite is_bracketed_wrap. cbn [mbind outcome_bind].
  rewrite strip_brackets_wrap. cbn [mbind outcome_bind].
  rewrite PlaceholderifyData_no_match
    by by apply regex_search_LIST_MATCH_bracket_free.
  cbn [mbind outcome_bind fst snd].
  apply find_char_None in Hpipe. rewrite Hpipe.
  destruct (find_char_Some (Serialize B) PARAM_SEPARATOR) as [p ->];
    [by apply Serialize_has_param_separator|].
  apply ParamPackage_Serialize.
  intros k v H. by destruct (Hplain k v H) as [(? & _) (? & _ & ?)].
Qed.

Lemma X13_single_package_read_as_nested_witness :
  Get_package (Set_packages ∅ "k" [ {[ "x" := "1"; "y" := "2" ]} ]) "k" ∅
  = Returns {[ "x" := "1"; "y" := "2" ]}.
Proof.
  apply X13_single_package_read_as_nested.
  - apply (bool_decide_unpack
             (map_Forall (fun k v =>
                (bracket_free k ∧ pipe_free k)
                ∧ (bracket_free v ∧ pipe_free v ∧ placeholder_free v)) _)).
    vm_compute. exact I.
  - vm_compute. lia.
Defined.

(** A bracketed value without opening bracket and pair separator inside
    is no container and no list of containers. *)
Lemma nested_getters_reject_primitive_list data key inner :
  data !! key = Some ("[" +:+ inner +:+ "]") →
  bracket_free inner → has_char PARAM_SEPARATOR inner = false →
  (∀ d, Get_package data key d = Returns d)
  ∧ (∀ d, Get_packages data key d = Returns d).
Proof.
  intros Hkey Hfree Hsep. apply find_char_None in Hsep.
  unfold Get_package, Get_packages. rewrite Hkey.
  rewrite is_bracketed_wrap. cbn [mbind outcome_bind].
  rewrite strip_brackets_wrap. cbn [mbind outcome_bind].
  rewrite PlaceholderifyData_no_match
    by by apply regex_search_LIST_MATCH_bracket_free.
  cbn [mbind outcome_bind fst snd]. rewrite Hsep.
  split; [|done]. intros d. by destruct (find inner (str1 LIST_SEPARATOR)).
Qed.

(** X14. Structural mismatch falls back to the default: on a list of [int]
    written with [Set(key, vector<int>)], and on a list of strings without
    opening bracket and pair separator written with
    [Set(key, vector<string>)], the getters for a nested container and for
    a list of containers return the default they were given. *)
Theorem X14_nested_getters_reject_primitive_lists
  (data : DataType) (key : string) (ints : list Z) (items : list string)
  (Hitems : Forall (fun item => bracket_free item
                                ∧ has_char PARAM_SEPARATOR item = false) items) :
  (∀ d, Get_package (Set_ints data key ints) key d = Returns d)
  ∧ (∀ d, Get_packages (Set_ints data key ints) key d = Returns d)
  ∧ (∀ d, Get_package (Set_strings data key items) key d = Returns d)
  ∧ (∀ d, Get_packages (Set_strings data key items) key d = Returns d).
Proof.
  assert (∀ c, isdigit c = false → c ≠ "-"%char → c ≠ LIST_SEPARATOR →
               has_char c (join (str1 LIST_SEPARATOR) (to_string_int <$> ints))
               = false) as Hints.
  { intros c Hd Hm Hp. apply has_char_join.
    - simpl. by destruct (decide (LIST_SEPARATOR = c)).
    - apply Forall_fmap, Forall_forall. intros z _.
      by apply has_char_to_string_int. }
  destruct (nested_getters_reject_primitive_list
              (Set_ints data key ints) key
              (join (str1 LIST_SEPARATOR) (to_string_int <$> ints)))
    as [H1 H2].
  { unfold Set_ints. by rewrite lookup_insert_eq. }
  { by apply Hints. }
  { by apply Hints. }
  destruct (nested_getters_reject_primitive_list
              (Set_strings data key items) key
              (join (str1 LIST_SEPARATOR) items))
    as [H3 H4].
  { unfold Set_strings. by rewrite lookup_insert_eq. }
  { apply has_char_join; [done|]. eapply Forall_impl; [exact Hitems|]. by intros ? []. }
  { apply has_char_join; [done|]. eapply Forall_impl; [exact Hitems|]. by intros ? []. }
  done.
Qed.

Lemma X14_nested_getters_reject_primitive_lists_witness :
  Get_packages (Set_strings ∅ "k" ["a"; "b:c"]) "k" [] = Returns [].
Proof.
  apply (X14_nested_getters_reject_primitive_lists ∅ "k" [] ["a"; "b:c"]).
  repeat constructor.
Defined.

(** ** Masking *)

Lemma PlaceholderifyData_loop_invariant fuel s lookup :
  count_char "[" s < fuel →
  ∃ s' added,
    PlaceholderifyData_loop fuel s lookup = Returns (s', lookup ++ added)
    ∧ regex_search_LIST_MATCH s' = None
    ∧ length added ≤ count_char "[" s
    ∧ count_char "[" s' + length added ≤ count_char "[" s.
Proof.
  revert s lookup. induction fuel as [|fuel IH]; intros s lookup Hlt; [lia|].
  cbn [PlaceholderifyData_loop].
  destruct (regex_search_LIST_MATCH s) as [m|] eqn:E.
  - pose proof (regex_search_LIST_MATCH_Some _ _ E) as [y Hy].
    destruct (placeholderify_step_returns s lookup m E) as (x & s1 & -> & Hstep).
    injection Hy as ->. cbn [for_each]. rewrite Hstep.
    cbn [mbind outcome_bind fst snd].
    pose proof (placeholderify_step_decreases _ _ _ _ _ Hstep) as Hdec.
    destruct (IH s1 (lookup ++ [Indeterminate]))
      as (s' & added & Hloop & Hno & Hlen & Hcount); [lia|].
    exists s', (Indeterminate :: added). split_and!.
    + by rewrite Hloop, <-(assoc_L (++)).
    + done.
    + simpl. lia.
    + simpl. lia.
  - exists s, []. rewrite (right_id_L [] (++)). split_and!; try done; simpl; lia.
Qed.

(** X15. [PlaceholderifyData] returns on every string and every table.
    The string it returns has no bracketed region left for the list
    pattern; the table it was given is kept as it is and entries are
    appended to it, at most one per opening bracket of the input; a string
    without bracketed region comes back as it is, with the table as it is;
    a string with one comes back with a [##N] token in it. *)
Theorem X15_PlaceholderifyData_masks
  (str : string) (lookup : list table_entry) :
  ∃ s' added,
    PlaceholderifyData str lookup = Returns (s', lookup ++ added)
    ∧ regex_search_LIST_MATCH s' = None
    ∧ length added ≤ count_char "[" str
    ∧ (regex_search_LIST_MATCH str = None → s' = str ∧ added = [])
    ∧ (regex_search_LIST_MATCH str ≠ None → ¬ placeholder_free s').
Proof.
  destruct (PlaceholderifyData_loop_invariant (S (String.length str)) str lookup)
    as (s' & added & Hloop & Hno & Hlen & _).
  { pose proof (count_char_length "[" str). lia. }
  fold (PlaceholderifyData str lookup) in Hloop.
  exists s', added. split_and!; try done.
  - intros Hnone. rewrite (PlaceholderifyData_no_match _ _ Hnone) in Hloop.
    injection Hloop as <- Hadd. split; [done|].
    apply (f_equal length) in Hadd. rewrite List.length_app in Hadd.
    destruct added; [done|simpl in Hadd; lia].
  - intros Hm. by eapply PlaceholderifyData_loop_token.
Qed.

(** ** Text without pairs *)

Lemma SplitString_fields_absent c s d :
  has_char c s = false →
  Forall (fun field => has_char c field = false) (SplitString s d).
Proof.
  induction s as [|a s IH]; simpl; [by repeat constructor|].
  destruct (decide (a = c)); [done|]. intros Hs. specialize (IH Hs).
  destruct (decide (a = d)); [by constructor|].
  destruct (SplitString s d) as [|field fields].
  - constructor; [|constructor]. simpl. by destruct (decide (a = c)).
  - apply Forall_cons in IH as [Hf Hfs]. constructor; [|done].
    simpl. by destruct (decide (a = c)).
Qed.

Lemma foldl_parse_pair_all_skipped pairs data :
  Forall (fun pair => has_char KEY_VALUE_SEPARATOR pair = false) pairs →
  foldl parse_pair data pairs = data.
Proof.
  induction 1 as [|pair pairs Hpair _ IH]; [done|]. simpl.
  unfold parse_pair at 2. by rewrite SplitString_absent.
Qed.

(** X16. A text without key/value separator and without opening bracket,
    the empty text among them, decodes to the empty container: every pair
    of it is skipped. *)
Theorem X16_text_without_pairs_is_empty (serialized : string)
  (Hsep : has_char KEY_VALUE_SEPARATOR serialized = false)
  (Hfree : bracket_free serialized) :
  ParamPackage serialized = Returns ∅.
Proof.
  unfold ParamPackage. destruct (decide _) as [|_]; [done|].
  rewrite PlaceholderifyData_no_match
    by by apply regex_search_LIST_MATCH_bracket_free.
  cbn [mbind outcome_bind fst snd].
  rewrite foldl_parse_pair_all_skipped by by apply SplitString_fields_absent.
  by apply restore_values_plain.
Qed.

Lemma X16_text_without_pairs_is_empty_witness :
  ParamPackage "" = Returns ∅ ∧ ParamPackage "bad,worse" = Returns ∅.
Proof. split; apply X16_text_without_pairs_is_empty; reflexivity. Defined.

(** ** The order of the serialized pairs *)

(** X17. The text of a non-empty container is the list of its pairs, each
    written as escaped key, key/value separator, escaped value, joined by
    the pair separator: every pair of the container once, by ascending key,
    whatever the order in which the keys were set. *)
Theorem X17_serialize_lists_pairs_by_key (data : DataType) (Hne : data ≠ ∅) :
  ∃ pairs,
    Serialize data = join (str1 PARAM_SEPARATOR) (encode_pair <$> pairs)
    ∧ StronglySorted (fun p q => String.le p.1 q.1) pairs
    ∧ NoDup pairs.*1
    ∧ ∀ k v, (k, v) ∈ pairs ↔ data !! k = Some v.
Proof.
  exists (entries data). split_and!.
  - by apply Serialize_nonempty.
  - apply entries_sorted.
  - apply NoDup_entries.
  - apply elem_of_entries.
Qed.

Lemma X17_serialize_lists_pairs_by_key_witness :
  ∃ pairs,
    Serialize (Set_string (Set_string ∅ "b" "2") "a" "1")
    = join (str1 PARAM_SEPARATOR) (encode_pair <$> pairs)
    ∧ StronglySorted (fun p q => String.le p.1 q.1) pairs
    ∧ NoDup pairs.*1
    ∧ ∀ k v, (k, v) ∈ pairs
             ↔ Set_string (Set_string ∅ "b" "2") "a" "1" !! k = Some v.
Proof.
  apply X17_serialize_lists_pairs_by_key.
  intros H. apply (f_equal (fun m : DataType => m !! "a")) in H.
  by vm_compute in H.
Defined.

(** ** What the unmasking never does *)

(** X18. [ReplacePlaceholders] never replaces anything and never reads
    the table: it returns the string it was given when the string has no
    [##N] token and throws [std::invalid_argument] when it has one, with
    the same outcome for every table. *)
Theorem X18_ReplacePlaceholders_replaces_nothing
  (str : string) (lookup lookup' : list table_entry) :
  (ReplacePlaceholders str lookup = Returns str
   ∨ ReplacePlaceholders str lookup = Throws invalid_argument)
  ∧ (ReplacePlaceholders str lookup = Returns str ↔ placeholder_free str)
  ∧ ReplacePlaceholders str lookup = ReplacePlaceholders str lookup'.
Proof.
  destruct (regex_search_placeholder str) as [m|] eqn:E.
  - assert (¬ placeholder_free str) as Hm by (unfold placeholder_free; congruence).
    rewrite !(ReplacePlaceholders_match _ _ Hm). split_and!; [by right| |done].
    split; [done|]. intros H. by destruct Hm.
  - rewrite !(ReplacePlaceholders_no_match _ _ E). split_and!; [by left| |done].
    done.
Qed.

(** ** Scalars read as lists, lists read as scalars *)

Lemma to_string_int_head (value : Z) :
  ∃ c r, to_string_int value = String c r ∧ c ≠ "["%char.
Proof.
  unfold to_string_int. destruct (value <? 0)%Z.
  - exists "-"%char, (to_string (Z.abs_nat value)). by split.
  - destruct (to_string_cons (Z.abs_nat value)) as (c & r & -> & Hc).
    exists c, r. split; [done|]. by intros ->.
Qed.

(** X19. Type mismatch between scalars and lists falls back to the
    default: on a key written with [Set(key, int)] the getters for lists
    of strings and of [int] return the default they were given, and on a
    key written with [Set(key, vector<int>)] or [Set(key, vector<string>)]
    the getter for [int] returns its default. *)
Theorem X19_scalar_list_mismatch
  (data : DataType) (key : string) (value : Z) (ints : list Z)
  (items : list string) :
  (∀ d, Get_strings (Set_int data key value) key d = Returns d)
  ∧ (∀ d, Get_ints (Set_int data key value) key d = Returns d)
  ∧ (∀ d, Get_int (Set_ints data key ints) key d = Returns d)
  ∧ (∀ d, Get_int (Set_strings data key items) key d = Returns d).
Proof.
  assert (∀ d, Get_strings (Set_int data key value) key d = Returns d) as Hstrings.
  { intros d. unfold Get_strings, Set_int. rewrite lookup_insert_eq.
    destruct (to_string_int_head value) as (c & r & -> & Hc).
    unfold is_bracketed. cbn [front mbind outcome_bind].
    by destruct (decide (c = "["%char)). }
  split_and!; [done| | |].
  - intros d. unfold Get_ints. by rewrite Hstrings.
  - intros d. unfold Get_int, Set_ints. by rewrite lookup_insert_eq.
  - intros d. unfold Get_int, Set_strings. by rewrite lookup_insert_eq.
Qed.
